(** * VEX V5RC world skills tracker: aggregation, fetch client, bubble filter

    A shallow embedding of [src/vex_skills_tracker.py]:
    - [aggregate_skills] and the two dictionaries it builds, as insertion
      ordered association lists (Python's [dict] keeps insertion order and the
      code iterates over it);
    - the API client [RobotEventsAPI] ([_get], [_get_all_pages],
      [get_active_season]) in a state and error monad over an explicit
      client state, with the remote server as a function of the request;
    - step 6 of [main] (the qualification filter) over a store of entry
      objects, since the bubble list shares its objects with the leaderboard. *)

From Stdlib Require Import ZArith Lia.
From stdpp Require Import base option list sorting strings gmap.
From stdpp Require Import pretty.

Local Open Scope string_scope.
Local Open Scope Z_scope.
Local Open Scope list_scope.

(** ** JSON records handed to the aggregation *)

(** A missing key of a JSON object is [None]; [team.get("id")] on a missing key
    is Python's [None], which is a legal dictionary key: identifiers are
    therefore [option Z] throughout. *)
Record team_info := TeamInfo { ti_id : option Z; ti_name : option string }.
Record event_info := EventInfo { ei_id : option Z; ei_name : option string }.

Record run := Run {
  run_team : option team_info;
  run_event : option event_info;
  run_type : option string;
  run_score : option Z
}.

(** [{}], the default of [run.get("team", {})] and [run.get("event", {})]. *)
Definition empty_team : team_info := TeamInfo None None.
Definition empty_event : event_info := EventInfo None None.

Definition ident := option Z.
Definition key := (ident * ident)%type.

(** The values of the [team_event] dictionary. *)
Record group := Group {
  g_team_id : ident;
  g_team_number : string;
  g_event_id : ident;
  g_event_name : string;
  g_driver : Z;
  g_programming : Z
}.

(** The values of [best_per_team], which become the leaderboard entries. The
    keys ["rank"] and ["bubble_rank"] are added to the dictionary later, so
    they are optional fields here. *)
Record entry := Entry {
  team_id : ident;
  team_number : string;
  event_name : string;
  driver : Z;
  programming : Z;
  combined : Z;
  rank : option Z;
  bubble_rank : option Z
}.

Global Instance entry_eq_dec : EqDecision entry.
Proof. solve_decision. Defined.
Global Instance group_eq_dec : EqDecision group.
Proof. solve_decision. Defined.

(** ** Insertion ordered dictionaries *)

Section Dict.
Context {K V : Type} `{EqDecision K}.

(** [d.get(k)] *)
Fixpoint dict_get (k : K) (d : list (K * V)) : option V :=
  match d with
  | [] => None
  | (k', v) :: d' => if decide (k = k') then Some v else dict_get k d'
  end.

(** [d[k] = f(d[k])] for a key that is present: the position is kept. *)
Fixpoint dict_alter (f : V → V) (k : K) (d : list (K * V)) : list (K * V) :=
  match d with
  | [] => []
  | (k', v) :: d' =>
      if decide (k = k') then (k', f v) :: d' else (k', v) :: dict_alter f k d'
  end.

(** [d[k] = v]: a present key keeps its position, a new key goes last. *)
Definition dict_set (k : K) (v : V) (d : list (K * V)) : list (K * V) :=
  match dict_get k d with
  | Some _ => dict_alter (λ _, v) k d
  | None => d ++ [(k, v)]
  end.
(** What [dict_alter] does to one item. *)
Definition upd (f : V → V) (k : K) (kv : K * V) : K * V :=
  if decide (k = kv.1) then (kv.1, f kv.2) else kv.
End Dict.

(** ** [aggregate_skills] *)

Definition run_key (r : run) : key :=
  (ti_id (default empty_team (run_team r)),
   ei_id (default empty_event (run_event r))).

Definition skill_type (r : run) : string := default "" (run_type r).
Definition score (r : run) : Z := default 0 (run_score r).

Definition new_group (r : run) : group :=
  let team_info := default empty_team (run_team r) in
  let event_info := default empty_event (run_event r) in
  {| g_team_id := ti_id team_info;
     g_team_number := default "???" (ti_name team_info);
     g_event_id := ei_id event_info;
     g_event_name := default "" (ei_name event_info);
     g_driver := 0;
     g_programming := 0 |}.

Definition set_driver (s : Z) (g : group) : group :=
  {| g_team_id := g_team_id g; g_team_number := g_team_number g;
     g_event_id := g_event_id g; g_event_name := g_event_name g;
     g_driver := Z.max (g_driver g) s; g_programming := g_programming g |}.

Definition set_programming (s : Z) (g : group) : group :=
  {| g_team_id := g_team_id g; g_team_number := g_team_number g;
     g_event_id := g_event_id g; g_event_name := g_event_name g;
     g_driver := g_driver g; g_programming := Z.max (g_programming g) s |}.

(** One iteration of the first loop. *)
Definition add_run (team_event : list (key * group)) (r : run)
    : list (key * group) :=
  let k := run_key r in
  let team_event :=
    match dict_get k team_event with
    | Some _ => team_event
    | None => team_event ++ [(k, new_group r)]
    end in
  if decide (skill_type r = "driver") then
    dict_alter (set_driver (score r)) k team_event
  else if decide (skill_type r = "programming") then
    dict_alter (set_programming (score r)) k team_event
  else team_event.

Definition team_event (all_skills : list run) : list (key * group) :=
  foldl add_run [] all_skills.

Definition g_combined (g : group) : Z := g_driver g + g_programming g.

Definition best_of (g : group) : entry :=
  {| team_id := g_team_id g;
     team_number := g_team_number g;
     event_name := g_event_name g;
     driver := g_driver g;
     programming := g_programming g;
     combined := g_driver g + g_programming g;
     rank := None;
     bubble_rank := None |}.

(** One iteration of the second loop, over [team_event.items()]. *)
Definition add_best (best_per_team : list (ident * entry)) (item : key * group)
    : list (ident * entry) :=
  let data := item.2 in
  let t := g_team_id data in
  let c := g_driver data + g_programming data in
  match dict_get t best_per_team with
  | None => dict_set t (best_of data) best_per_team
  | Some b =>
      if bool_decide (combined b < c) then dict_set t (best_of data) best_per_team
      else best_per_team
  end.

Definition best_per_team (te : list (key * group)) : list (ident * entry) :=
  foldl add_best [] te.

(** The sort key [(-x["combined"], -x["programming"])] and Python's
    lexicographic order on tuples. *)
Definition sort_key (e : entry) : Z * Z := (- combined e, - programming e).

Definition key_le (a b : Z * Z) : Prop :=
  a.1 < b.1 ∨ (a.1 = b.1 ∧ a.2 ≤ b.2).

Global Instance key_le_dec a b : Decision (key_le a b).
Proof. unfold key_le. apply _. Defined.

(** [sorted(xs, key=...)] is a stable sort; its result is modelled by the
    stable insertion sort: an element is placed before the first element of the
    sorted tail whose key is not smaller, so that among equal keys the
    earlier element of the input comes first. *)
Fixpoint insert_by (x : entry) (l : list entry) : list entry :=
  match l with
  | [] => [x]
  | y :: l' =>
      if decide (key_le (sort_key x) (sort_key y)) then x :: y :: l'
      else y :: insert_by x l'
  end.

Fixpoint sorted (l : list entry) : list entry :=
  match l with
  | [] => []
  | x :: l' => insert_by x (sorted l')
  end.

Definition set_rank (i : nat) (e : entry) : entry :=
  {| team_id := team_id e; team_number := team_number e;
     event_name := event_name e; driver := driver e;
     programming := programming e; combined := combined e;
     rank := Some (Z.of_nat i + 1); bubble_rank := bubble_rank e |}.

Definition aggregate_skills (all_skills : list run) : list entry :=
  let te := team_event all_skills in
  let best := best_per_team te in
  let leaderboard := sorted (best.*2) in
  imap set_rank leaderboard.

(** ** The API client [RobotEventsAPI] *)

Definition BASE_URL : string := "https://www.robotevents.com/api/v2".
Definition V5RC_PROGRAM_ID : Z := 1.
Definition PER_PAGE : Z := 250.
Definition MAX_RETRIES : nat := 3.

(** Values of the query parameters. *)
Inductive pval := PInt (n : Z) | PStr (s : string).

(** The paginated envelope [{ data: [...], meta: { current_page, last_page,
    total } }]; every key may be missing, and [{}] is [empty_json]. *)
Record meta_info := Meta {
  current_page : option Z;
  last_page : option Z;
  total : option Z
}.

Record json (A : Type) := Json {
  data : option (list A);
  meta : option meta_info
}.
Arguments Json {A} _ _.
Arguments data {A} _.
Arguments meta {A} _.

Definition empty_meta : meta_info := Meta None None None.
Definition empty_json {A} : json A := Json None None.

(** The [Retry-After] header: missing, a decimal integer, or something [int]
    rejects. *)
Inductive retry_after := RA_absent | RA_seconds (n : Z) | RA_malformed.

(** What [session.get] does: it raises a [RequestException] (connection error,
    timeout), or it returns a response. The body of a response is taken as
    already parsed. *)
Inductive net_result (A : Type) :=
| Net_exception
| Net_response (status_code : Z) (h : retry_after) (body : json A).
Arguments Net_exception {A}.
Arguments Net_response {A} _ _ _.

Inductive exn :=
| RequestException
| ValueError
| RuntimeError (msg : string)
| OverflowError.

(** [RATE_LIMIT_DELAY] is the constant 0.35; the other sleeps are whole
    seconds. *)
Inductive duration := RATE_LIMIT_DELAY | Seconds (n : Z).

Inductive message :=
| Msg_rate_limited (wait : Z)
| Msg_request_failed (attempt : Z)
| Msg_progress (label : string) (current last : Z) (items : nat) (total : Z)
| Msg_newline.

(** What the client does to the outside, in order. *)
Inductive event :=
| Sleep (d : duration)
| Get (url : string) (ps : gmap string pval)
| Print (m : message).

Record client := Client { request_count : nat; log : list event }.

Inductive outcome (A : Type) := Ret (a : A) | Raise (e : exn).
Arguments Ret {A} _.
Arguments Raise {A} _.

(** State and exception monad over the client. *)
Definition M (A : Type) : Type := client → outcome A * client.

Definition ret {A} (a : A) : M A := λ c, (Ret a, c).
Definition raise {A} (e : exn) : M A := λ c, (Raise e, c).
Definition bind {A B} (m : M A) (f : A → M B) : M B :=
  λ c, match m c with
       | (Ret a, c') => f a c'
       | (Raise e, c') => (Raise e, c')
       end.

Global Instance M_ret : MRet M := @ret.
Global Instance M_bind : MBind M := λ A B f m, bind m f.

Definition emit (ev : event) : M unit :=
  λ c, (Ret tt, Client (request_count c) (log c ++ [ev])).

(** The longest sleep, in whole seconds: [time.sleep] keeps the length as a
    64 bit number of nanoseconds, and 9223372037 seconds do not fit. *)
Definition MAX_SLEEP : Z := 9223372036.

(** [time.sleep] raises [ValueError] on a negative length and
    [OverflowError] on a length that is too large. *)
Definition sleep (d : duration) : M unit :=
  match d with
  | Seconds n =>
      if bool_decide (n < 0) then raise ValueError
      else if bool_decide (MAX_SLEEP < n) then raise OverflowError
      else emit (Sleep d)
  | RATE_LIMIT_DELAY => emit (Sleep d)
  end.

Definition print (m : message) : M unit := emit (Print m).

(** [self.request_count += 1]; gives the number of earlier requests. *)
Definition count_request : M nat :=
  λ c, (Ret (request_count c), Client (S (request_count c)) (log c)).

(** [int(resp.headers.get("Retry-After", 30))] *)
Definition wait_of (h : retry_after) : option Z :=
  match h with
  | RA_absent => Some 30
  | RA_seconds n => Some n
  | RA_malformed => None
  end.

(** [resp.raise_for_status()] raises for the statuses 400 to 599. *)
Definition is_error_status (status : Z) : bool :=
  bool_decide (400 ≤ status < 600).

Section Client.
Context {A : Type}.

(** The remote server: its answer to a request, given how many requests the
    client has sent before. *)
Variable srv : nat → string → gmap string pval → net_result A.

Definition session_get (n : nat) (url : string) (ps : gmap string pval)
    : M (net_result A) :=
  emit (Get url ps) ;; ret (srv n url ps).

(** The body of [for attempt in range(MAX_RETRIES)], the list being the
    attempts still to come; [return {}] after the loop. *)
Fixpoint _get_loop (attempts : list nat) (endpoint : string)
    (ps : gmap string pval) : M (json A) :=
  match attempts with
  | [] => ret empty_json
  | attempt :: rest =>
      let on_exception : M (json A) :=
        if bool_decide (attempt < MAX_RETRIES - 1)%nat then
          print (Msg_request_failed (Z.of_nat attempt + 1)) ;;
          sleep (Seconds (2 ^ Z.of_nat attempt)) ;;
          _get_loop rest endpoint ps
        else raise RequestException in
      sleep RATE_LIMIT_DELAY ;;
      n ← count_request;
      resp ← session_get n (BASE_URL +:+ endpoint) ps;
      match resp with
      | Net_exception => on_exception
      | Net_response status h body =>
          if bool_decide (status = 429) then
            match wait_of h with
            | None => raise ValueError
            | Some wait =>
                print (Msg_rate_limited wait) ;;
                sleep (Seconds wait) ;;
                _get_loop rest endpoint ps
            end
          else if is_error_status status then on_exception
          else ret body
      end
  end.

Definition _get (endpoint : string) (ps : gmap string pval) : M (json A) :=
  _get_loop (seq 0 MAX_RETRIES) endpoint ps.

(** The [while True] loop of [_get_all_pages]; [None] when the fuel runs out
    before the loop ends. *)
Fixpoint pages_loop (fuel : nat) (endpoint : string) (ps : gmap string pval)
    (label : string) (all_data : list A) (c : client)
    : option (outcome (list A) * client) :=
  match fuel with
  | O => None
  | S fuel' =>
      match _get endpoint ps c with
      | (Raise e, c') => Some (Raise e, c')
      | (Ret result, c') =>
          let d := default [] (data result) in
          let m := default empty_meta (meta result) in
          let all_data := all_data ++ d in
          let current := default 1 (current_page m) in
          let last := default 1 (last_page m) in
          let tot := default (Z.of_nat (length all_data)) (total m) in
          let c' :=
            if decide (label = "") then c'
            else (print (Msg_progress label current last (length all_data) tot)
                    c').2 in
          if bool_decide (last ≤ current) then
            Some (Ret all_data,
                  if decide (label = "") then c' else (print Msg_newline c').2)
          else
            pages_loop fuel' endpoint (<["page" := PInt (current + 1)]> ps)
              label all_data c'
      end
  end.

Definition _get_all_pages (fuel : nat) (endpoint : string)
    (ps : option (gmap string pval)) (label : string) (c : client)
    : option (outcome (list A) * client) :=
  let ps := default ∅ ps in
  let ps := <["per_page" := PInt PER_PAGE]> ps in
  let ps := <["page" := PInt 1]> ps in
  pages_loop fuel endpoint ps label [] c.

Definition season_params : gmap string pval :=
  <["active" := PStr "true"]> (<["program[]" := PInt V5RC_PROGRAM_ID]> ∅).

Definition get_active_season : M A :=
  d ← _get "/seasons" season_params;
  let seasons := default [] (data d) in
  match last seasons with
  | None => raise (RuntimeError "No active V5RC season found!")
  | Some s => ret s
  end.

End Client.

(** ** Step 6 of [main]: the qualification filter *)

(** The leaderboard is a list of dictionary objects; the list comprehension
    of step 6 builds a second list of the same objects. Objects live in a
    store and the two lists hold their addresses. *)
Abbreviation store := (list entry).

Definition set_bubble_rank (i : nat) (e : entry) : entry :=
  {| team_id := team_id e; team_number := team_number e;
     event_name := event_name e; driver := driver e;
     programming := programming e; combined := combined e;
     rank := rank e; bubble_rank := Some (Z.of_nat i + 1) |}.

(** The objects returned by [aggregate_skills], at the addresses 0, 1, ... *)
Definition alloc (entries : list entry) : store * list nat :=
  (entries, seq 0 (length entries)).

(** [[t for t in leaderboard if t["team_id"] not in qualified_team_ids]];
    [not_in] is the test on the object at an address. *)
Definition not_in (qualified_team_ids : gset ident) (h : store) (a : nat)
    : bool :=
  match h !! a with
  | Some t => bool_decide (team_id t ∉ qualified_team_ids)
  | None => false
  end.

Definition non_qualified (h : store) (leaderboard : list nat)
    (qualified_team_ids : gset ident) : list nat :=
  filter (λ a, Is_true (not_in qualified_team_ids h a)) leaderboard.

(** [for i, entry in enumerate(non_qualified): entry["bubble_rank"] = i + 1],
    from position [i] on. *)
Fixpoint rerank (i : nat) (addrs : list nat) (h : store) : store :=
  match addrs with
  | [] => h
  | a :: addrs' => rerank (S i) addrs' (alter (set_bubble_rank i) a h)
  end.

(** Step 6: the store afterwards and the bubble list. *)
Definition filter_qualified (h : store) (leaderboard : list nat)
    (qualified_team_ids : gset ident) : store * list nat :=
  let nq := non_qualified h leaderboard qualified_team_ids in
  (rerank 0 nq h, nq).

(** The objects a list of addresses stands for. *)
Definition deref (h : store) (addrs : list nat) : list entry :=
  omap (λ a, h !! a) addrs.

(** ** The other queries of [RobotEventsAPI] *)

(** The events and the teams of the answers, with the keys the program
    reads; a missing key is [None]. *)
Record program_info := ProgramInfo { prog_id : option Z }.

Record event_json := EventJson {
  evj_id : option Z;
  evj_name : option string;
  evj_event_type : option string;
  evj_program : option program_info
}.

(** A team of a roster. [tmj_id] is [None] when the object has no key
    ["id"], and [Some None] when the key is there with the value [null],
    which [team["id"]] reads as Python's [None]. [tmj_grade] is [None] when
    the key ["grade"] is missing or [null]: [team.get("grade", "")] is then
    [""] or [None], and both are false in [not grade]. *)
Record team_json := TeamJson { tmj_id : option ident; tmj_grade : option string }.

Global Instance program_info_eq_dec : EqDecision program_info.
Proof. solve_decision. Defined.
Global Instance event_json_eq_dec : EqDecision event_json.
Proof. solve_decision. Defined.
Global Instance team_json_eq_dec : EqDecision team_json.
Proof. solve_decision. Defined.

Definition GRADE_FILTER : string := "High School".

(** [get_season_events] *)
Definition get_season_events {A}
    (srv : nat → string → gmap string pval → net_result A) (fuel : nat)
    (season_id : Z) (c : client) : option (outcome (list A) * client) :=
  _get_all_pages srv fuel "/events"
    (Some (<["season[]" := PInt season_id]> ∅)) "Fetching events" c.

(** [get_event_skills]; the endpoint is [f"/events/{event_id}/skills"]. *)
Definition get_event_skills {A}
    (srv : nat → string → gmap string pval → net_result A) (fuel : nat)
    (event_id : Z) (c : client) : option (outcome (list A) * client) :=
  _get_all_pages srv fuel ("/events/" +:+ pretty event_id +:+ "/skills")
    None "" c.

(** [get_event_teams]: [if grade:] holds for a grade that is given and not
    the empty string. *)
Definition get_event_teams {A}
    (srv : nat → string → gmap string pval → net_result A) (fuel : nat)
    (event_id : Z) (grade : option string) (c : client)
    : option (outcome (list A) * client) :=
  let params : gmap string pval :=
    match grade with
    | Some g => if decide (g = "") then ∅ else <["grade[]" := PStr g]> ∅
    | None => ∅
    end in
  _get_all_pages srv fuel ("/events/" +:+ pretty event_id +:+ "/teams")
    (Some params) "Fetching Worlds teams" c.

(** The loop of [get_worlds_event]: the first event of the target program. *)
Fixpoint first_v5rc (events : list event_json) : option event_json :=
  match events with
  | [] => None
  | event :: events' =>
      let prog := default (ProgramInfo None) (evj_program event) in
      if decide (prog_id prog = Some V5RC_PROGRAM_ID) then Some event
      else first_v5rc events'
  end.

Definition worlds_params (season_id : Z) : gmap string pval :=
  <["per_page" := PInt 10]>
    (<["level[]" := PStr "World"]> (<["season[]" := PInt season_id]> ∅)).

Definition get_worlds_event
    (srv : nat → string → gmap string pval → net_result event_json)
    (season_id : Z) : M (option event_json) :=
  d ← _get srv "/events" (worlds_params season_id);
  let events := default [] (data d) in
  match first_v5rc events with
  | Some event => ret (Some event)
  | None => ret (head events)
  end.

(** ** Steps 3 and 4 of [main] *)

(** [team["id"]] and [event["id"]] raise [KeyError] on a missing key. *)
Inductive key_error := KeyError (k : string).

(** The loop of step 3 over the roster of the Worlds event, from the set
    built so far. *)
Fixpoint add_qualified (worlds_teams : list team_json)
    (qualified_team_ids : gset ident) : key_error + gset ident :=
  match worlds_teams with
  | [] => inr qualified_team_ids
  | team :: rest =>
      let grade := default "" (tmj_grade team) in
      if decide (grade = GRADE_FILTER ∨ grade = "") then
        match tmj_id team with
        | None => inl (KeyError "id")
        | Some i => add_qualified rest ({[i]} ∪ qualified_team_ids)
        end
      else add_qualified rest qualified_team_ids
  end.

(** [[e for e in events if e.get("event_type") != "workshop"]] *)
Definition skills_events (events : list event_json) : list event_json :=
  filter (λ e, evj_event_type e ≠ Some "workshop") events.

(** The loop of step 4 over the events to fetch: the runs of an event are
    added, and an event whose fetch raises is given up ([except Exception]).
    What [main] prints is left out: it does not go through the client.
    [None] when the fuel of a pagination runs out. *)
Fixpoint fetch_skills
    (srv : nat → string → gmap string pval → net_result run) (fuel : nat)
    (events : list event_json) (all_skills : list run) (c : client)
    : option ((key_error + list run) * client) :=
  match events with
  | [] => Some (inr all_skills, c)
  | event :: rest =>
      match evj_id event with
      | None => Some (inl (KeyError "id"), c)
      | Some eid =>
          match get_event_skills srv fuel eid c with
          | None => None
          | Some (Ret skills, c') =>
              fetch_skills srv fuel rest (all_skills ++ skills) c'
          | Some (Raise _, c') => fetch_skills srv fuel rest all_skills c'
          end
      end
  end.

(** ** Vocabulary of the properties, and the inputs of the scenarios *)

Definition mk_run (t : Z) (tn : string) (e : Z) (en : string) (ty : string)
    (s : Z) : run :=
  Run (Some (TeamInfo (Some t) (Some tn))) (Some (EventInfo (Some e) (Some en)))
      (Some ty) (Some s).

Definition scenario_100A : list run :=
  [ mk_run 100 "100A" 1 "E1" "driver" 50;
    mk_run 100 "100A" 1 "E1" "programming" 40;
    mk_run 100 "100A" 2 "E2" "driver" 60;
    mk_run 100 "100A" 2 "E2" "programming" 20 ].

Definition scenario_200B : list run :=
  [ mk_run 200 "200B" 1 "E1" "programming" 70 ].

(** The scores of the runs of one (team, event) group and one type, in input
    order, and the largest of them, zero when there is none. *)
Definition scores_of (k : key) (ty : string) (runs : list run) : list Z :=
  score <$> filter (λ r, run_key r = k ∧ skill_type r = ty) runs.

Definition max0 (l : list Z) : Z := foldl Z.max 0 l.

(** What one run does to the group of its key. *)
Definition apply_run (r : run) (g : group) : group :=
  if decide (skill_type r = "driver") then set_driver (score r) g
  else if decide (skill_type r = "programming") then set_programming (score r) g
  else g.

Definition group_ok (runs : list run) (kg : key * group) : Prop :=
  g_team_id kg.2 = kg.1.1 ∧ g_event_id kg.2 = kg.1.2 ∧
  g_driver kg.2 = max0 (scores_of kg.1 "driver" runs) ∧
  g_programming kg.2 = max0 (scores_of kg.1 "programming" runs).

(** The position in the input of the first run of a group. *)
Definition first_pos (k : key) (runs : list run) : option nat :=
  fst <$> list_find (λ r, run_key r = k) runs.

(** The labels that [new_group] reads off a run: the name of its team and
    the name of its event. *)
Definition team_label (r : run) : string :=
  default "???" (ti_name (default empty_team (run_team r))).

Definition event_label (r : run) : string :=
  default "" (ei_name (default empty_event (run_event r))).

(** The labels of a group are those of the first run of its key. *)
Definition labels_ok (runs : list run) (kg : key * group) : Prop :=
  ∃ a r0, first_pos kg.1 runs = Some a ∧ runs !! a = Some r0 ∧
          g_team_number kg.2 = team_label r0 ∧
          g_event_name kg.2 = event_label r0.

(** Group number [i] of [te] is the one selected for team [t]: no group of the
    team has a higher combined score, and every earlier group of the team has
    a strictly lower one. *)
Definition best_group (te : list (key * group)) (t : ident) (i : nat)
    (g : group) : Prop :=
  (∃ k, te !! i = Some (k, g)) ∧ g_team_id g = t ∧
  ∀ j k' g', te !! j = Some (k', g') → g_team_id g' = t →
    g_combined g' ≤ g_combined g ∧ ((j < i)%nat → g_combined g' < g_combined g).

Definition best_ok (te : list (key * group)) (tb : ident * entry) : Prop :=
  ∃ i g, tb.2 = best_of g ∧ best_group te tb.1 i g.

Definition entry_le (a b : entry) : Prop := key_le (sort_key a) (sort_key b).

(** The combined score of a (team, event) group, from the input. *)
Definition group_combined (k : key) (runs : list run) : Z :=
  max0 (scores_of k "driver" runs) + max0 (scores_of k "programming" runs).

(** [m] is the largest element of [l], or zero when [l] is empty. *)
Definition is_max_or_zero (m : Z) (l : list Z) : Prop :=
  (l = [] ∧ m = 0) ∨ (m ∈ l ∧ ∀ s, s ∈ l → s ≤ m).

Definition unrank (e : entry) : entry :=
  {| team_id := team_id e; team_number := team_number e;
     event_name := event_name e; driver := driver e;
     programming := programming e; combined := combined e;
     rank := None; bubble_rank := bubble_rank e |}.

Definition entry_200B : entry :=
  Entry (Some 200) "200B" "E1" 0 70 70 (Some 1) None.

Definition entry_100A : entry :=
  Entry (Some 100) "100A" "E1" 50 40 90 (Some 1) None.

(** Two events of one team with the same combined score and the same
    components, the team under another name at the second event met. *)
Definition scenario_tie : list run :=
  [ mk_run 100 "100A" 2 "E2" "driver" 60;
    mk_run 100 "100X" 1 "E1" "driver" 60;
    mk_run 100 "100X" 1 "E1" "programming" 30;
    mk_run 100 "100A" 2 "E2" "programming" 30 ].

Definition entry_tie : entry :=
  Entry (Some 100) "100A" "E2" 60 30 90 (Some 1) None.

(** Runs with negative scores. *)
Definition scenario_negative : list run :=
  [ mk_run 100 "100A" 1 "E1" "driver" (-5);
    mk_run 100 "100A" 1 "E1" "programming" 12;
    mk_run 100 "100A" 2 "E2" "programming" (-3) ].

Definition entry_negative : entry :=
  Entry (Some 100) "100A" "E1" 0 12 12 (Some 1) None.

(** A run whose type is neither ["driver"] nor ["programming"]. *)
Definition unrecognized (r : run) : Prop :=
  skill_type r ≠ "driver" ∧ skill_type r ≠ "programming".

Global Instance unrecognized_dec r : Decision (unrecognized r).
Proof. unfold unrecognized. apply _. Defined.

Definition scenario_unknown_type : list run :=
  [ mk_run 300 "300C" 1 "E1" "practice" 55;
    mk_run 100 "100A" 1 "E1" "driver" 50;
    Run (Some (TeamInfo (Some 300) (Some "300C")))
        (Some (EventInfo (Some 2) (Some "E2"))) None (Some 12) ].

(** A failure caught by [except RequestException]: [session.get] raised, or
    [raise_for_status] raised on a status other than 429. *)
Definition transient_failure {A} (resp : net_result A) : bool :=
  match resp with
  | Net_exception => true
  | Net_response status _ _ =>
      bool_decide (status ≠ 429) && is_error_status status
  end.

(** A response that [_get] returns the body of. *)
Definition success {A} (resp : net_result A) (body : json A) : Prop :=
  ∃ status h, resp = Net_response status h body ∧ status ≠ 429 ∧
              is_error_status status = false.

(** The number of requests in a piece of the log. *)
Fixpoint n_gets (evs : list event) : nat :=
  match evs with
  | [] => 0
  | Get _ _ :: evs' => S (n_gets evs')
  | _ :: evs' => n_gets evs'
  end.

(** The client after it has done [evs]: the requests among them are counted. *)
Definition logged (c : client) (evs : list event) : client :=
  Client (n_gets evs + request_count c) (log c ++ evs).

(** The client after the pacing sleep and the request of one attempt. *)
Definition requested (c : client) (url : string) (ps : gmap string pval)
    : client :=
  logged c [Sleep RATE_LIMIT_DELAY; Get url ps].

(** What [k] failed attempts, numbered from [a], leave in the log. *)
Definition failure_trace (url : string) (ps : gmap string pval) (a k : nat)
    : list event :=
  flat_map (λ i, [Sleep RATE_LIMIT_DELAY; Get url ps;
                  Print (Msg_request_failed (Z.of_nat i + 1));
                  Sleep (Seconds (2 ^ Z.of_nat i))]) (seq a k).



(** The pages asked for, in order. *)
Definition requested_pages (l : list event) : list Z :=
  omap (λ ev, match ev with
              | Get _ ps => match ps !! "page" with
                            | Some (PInt p) => Some p
                            | _ => None
                            end
              | _ => None
              end) l.

(** A server that is down, and one that answers 429 three times before it
    answers. *)
Definition srv_down : nat → string → gmap string pval → net_result Z :=
  λ _ _ _, Net_exception.





Definition client0 : client := Client 0 [].


(** The client after the progress line of one page, printed when there is a
    label. *)
Definition progress_printed (label : string) (m : message) (c : client)
    : client :=
  if decide (label = "") then c else logged c [Print m].

(** The answer of a well-behaved server to the request of page [i] of [n]:
    the payload [pages i] (possibly no [data] at all), and any [total]. *)
Definition page_answer {A} (pages : nat → option (list A)) (tot : nat → option Z)
    (n i : nat) : net_result A :=
  Net_response 200 RA_absent
    (Json (pages i)
          (Some (Meta (Some (Z.of_nat i)) (Some (Z.of_nat n)) (tot i)))).

(** The payloads of the pages [i], [i + 1], ..., [k] of them, one after the
    other; a page without [data] is empty. *)
Definition payloads {A} (pages : nat → option (list A)) (i k : nat) : list A :=
  concat ((λ j, default [] (pages j)) <$> seq i k).

(** Three pages, the second without [data], and a [total] that is wrong. *)
Definition pages3 (i : nat) : option (list Z) :=
  match i with
  | 1%nat => Some [10; 11]
  | 2%nat => None
  | 3%nat => Some [30]
  | _ => Some []
  end.

Definition srv_three_pages : nat → string → gmap string pval → net_result Z :=
  λ _ _ ps, match ps !! "page" with
            | Some (PInt p) => page_answer pages3 (λ _, Some 77) 3 (Z.to_nat p)
            | _ => Net_exception
            end.

(** The seasons query answered with two seasons, and with none. *)
Definition srv_two_seasons : nat → string → gmap string pval → net_result Z :=
  λ _ _ _, Net_response 200 RA_absent (Json (Some [190; 197]) None).

Definition srv_no_season : nat → string → gmap string pval → net_result Z :=
  λ _ _ _, Net_response 200 RA_absent (Json (Some []) None).

(** An entry without its bubble rank: what the filter must not touch. *)
Definition forget_bubble (e : entry) : entry :=
  {| team_id := team_id e; team_number := team_number e;
     event_name := event_name e; driver := driver e;
     programming := programming e; combined := combined e;
     rank := rank e; bubble_rank := None |}.

Definition scenario_two_teams : list run := scenario_100A ++ scenario_200B.

(** The reading of C9 in the specification: the filter leaves the objects
    of the leaderboard as they are. *)
Definition filter_leaves_entries_unmodified : Prop :=
  ∀ (runs : list run) (q : gset ident),
    let lb := aggregate_skills runs in
    (filter_qualified (alloc lb).1 (alloc lb).2 q).1 = (alloc lb).1.

(** The requests a call of [_get_all_pages] may send: to the one endpoint,
    with [per_page] at [PER_PAGE], some page number, and the parameters of
    the caller otherwise. *)
Definition page_request_of (ep : string) (ps0 : gmap string pval)
    (ev : event) : Prop :=
  ∀ url ps, ev = Get url ps →
    url = BASE_URL +:+ ep ∧
    ps !! "per_page" = Some (PInt PER_PAGE) ∧
    (∃ p, ps !! "page" = Some (PInt p)) ∧
    ∀ key, key ≠ "page" → key ≠ "per_page" → ps !! key = ps0 !! key.

(** Something the client did that is no request other than [Get url ps]. *)
Definition same_request (url : string) (ps : gmap string pval) (ev : event)
    : Prop :=
  ∀ url' ps', ev = Get url' ps' → url' = url ∧ ps' = ps.

(** A server that rate-limits with a header that is not a number. *)
Definition srv_bad_header : nat → string → gmap string pval → net_result Z :=
  λ _ _ _, Net_response 429 RA_malformed empty_json.


(** A server with three pages that answers the first and is down, or
    rate-limits, from the second page on. *)
Definition srv_second_page_down : nat → string → gmap string pval → net_result Z :=
  λ _ _ ps, match ps !! "page" with
            | Some (PInt 1) => page_answer pages3 (λ _, Some 77) 3 1
            | _ => Net_exception
            end.

Definition srv_second_page_limited
    : nat → string → gmap string pval → net_result Z :=
  λ _ _ ps, match ps !! "page" with
            | Some (PInt 1) => page_answer pages3 (λ _, Some 77) 3 1
            | _ => Net_response 429 (RA_seconds 5) empty_json
            end.

(** An event of the target program. *)
Definition is_v5rc (e : event_json) : Prop :=
  prog_id (default (ProgramInfo None) (evj_program e)) = Some V5RC_PROGRAM_ID.

Global Instance is_v5rc_dec e : Decision (is_v5rc e).
Proof. unfold is_v5rc. apply _. Defined.

(** A team of the roster that step 3 counts as qualified: its grade is the
    target grade, or it has none. *)
Definition counted (team : team_json) : Prop :=
  default "" (tmj_grade team) = GRADE_FILTER ∨ default "" (tmj_grade team) = "".

Global Instance counted_dec team : Decision (counted team).
Proof. unfold counted. apply _. Defined.

(** What an event adds to the runs in step 4, its fetch ending in
    [outcome_of] its identifier. *)
Definition fetched (outcome_of : Z → outcome (list run)) (e : event_json)
    : list run :=
  match evj_id e with
  | Some eid => match outcome_of eid with Ret skills => skills | Raise _ => [] end
  | None => []
  end.

(** Worlds events of two programs, the target program second. *)
Definition worlds_two_programs : list event_json :=
  [ EventJson (Some 501) (Some "VIQRC Worlds") None (Some (ProgramInfo (Some 41)));
    EventJson (Some 502) (Some "V5RC Worlds") None (Some (ProgramInfo (Some 1))) ].

Definition srv_worlds : nat → string → gmap string pval → net_result event_json :=
  λ _ _ _, Net_response 200 RA_absent (Json (Some worlds_two_programs) None).

(** A roster: a high school team, a middle school team, a team without
    grade. *)
Definition roster3 : list team_json :=
  [ TeamJson (Some (Some 100)) (Some "High School");
    TeamJson (Some (Some 200)) (Some "Middle School");
    TeamJson (Some (Some 300)) None ].

(** A roster with a team whose [id] is [null], and runs of which one has
    no team. *)
Definition roster_null : list team_json :=
  [ TeamJson (Some (Some 100)) (Some "High School");
    TeamJson (Some None) None;
    TeamJson (Some (Some 200)) (Some "Middle School") ].

Definition scenario_no_team : list run :=
  scenario_two_teams ++
  [ Run None (Some (EventInfo (Some 1) (Some "E1"))) (Some "driver") (Some 33) ].

(** Three events: one with runs, one whose fetch fails, and a workshop. *)
Definition events3 : list event_json :=
  [ EventJson (Some 1) (Some "E1") (Some "tournament") None;
    EventJson (Some 2) (Some "E2") None None;
    EventJson (Some 3) (Some "W") (Some "workshop") None ].

(** The skills of event 1 on one page; every other request fails. *)
Definition srv_skills1 : nat → string → gmap string pval → net_result run :=
  λ _ url _,
    if decide (url = BASE_URL +:+ "/events/1/skills")
    then Net_response 200 RA_absent (Json (Some scenario_100A) None)
    else Net_exception.

Definition outcome_skills1 (eid : Z) : outcome (list run) :=
  if decide (eid = 1) then Ret scenario_100A else Raise RequestException.

(** ** Scenarios of the specification *)

Example scenario_100A_result :
  aggregate_skills scenario_100A =
  [ Entry (Some 100) "100A" "E1" 50 40 90 (Some 1) None ].
Proof. vm_compute. reflexivity. Qed.

Example scenario_200B_result :
  aggregate_skills scenario_200B =
  [ Entry (Some 200) "200B" "E1" 0 70 70 (Some 1) None ].
Proof. vm_compute. reflexivity. Qed.

(** Two events with the same combined score: the event met first stays,
    with its labels. *)
Example scenario_tie_first_seen :
  aggregate_skills
    [ mk_run 100 "100A" 2 "E2" "driver" 60;
      mk_run 100 "100A" 1 "E1" "driver" 50;
      mk_run 100 "100A" 1 "E1" "programming" 40;
      mk_run 100 "100A" 2 "E2" "programming" 30 ]
  = [ Entry (Some 100) "100A" "E2" 60 30 90 (Some 1) None ] ∧
  aggregate_skills scenario_tie = [entry_tie].
Proof. vm_compute. split; reflexivity. Qed.

(** Negative scores never lower a component below zero. *)
Example scenario_negative_score :
  aggregate_skills [ mk_run 100 "100A" 1 "E1" "driver" (-5) ]
  = [ Entry (Some 100) "100A" "E1" 0 0 0 (Some 1) None ] ∧
  aggregate_skills scenario_negative = [entry_negative].
Proof. vm_compute. split; reflexivity. Qed.

(** ** Lemmas on insertion ordered dictionaries *)

Section DictFacts.
Context {K V : Type} `{EqDecision K}.
Implicit Types (d : list (K * V)) (k : K) (v : V) (f : V → V).

Lemma dict_get_None k d : dict_get k d = None ↔ k ∉ d.*1.
Proof.
  induction d as [|[k' v] d IH]; simpl.
  - split; [intros _; apply not_elem_of_nil | done].
  - rewrite not_elem_of_cons. destruct (decide (k = k')) as [Heq|Hne].
    + split; [done|]. by intros [? _].
    + rewrite IH. tauto.
Qed.

Lemma dict_get_Some_elem k v d : dict_get k d = Some v → (k, v) ∈ d.
Proof.
  induction d as [|[k' v'] d IH]; simpl; [done|].
  destruct (decide (k = k')) as [->|]; intros Hg.
  - injection Hg as ->. left.
  - right. auto.
Qed.

Lemma dict_get_elem k v d : NoDup d.*1 → (k, v) ∈ d → dict_get k d = Some v.
Proof.
  induction d as [|[k' v'] d IH]; simpl; intros Hnd Hin.
  - by apply elem_of_nil in Hin.
  - apply NoDup_cons in Hnd as [Hk' Hnd].
    apply elem_of_cons in Hin as [Heq|Hin].
    + injection Heq as -> ->. by rewrite decide_True.
    + rewrite decide_False; [auto|].
      intros ->. apply Hk'. apply list_elem_of_fmap. by exists (k', v).
Qed.

Lemma dict_get_is_Some k d : is_Some (dict_get k d) ↔ k ∈ d.*1.
Proof.
  destruct (dict_get k d) eqn:Hg.
  - split; [intros _|eauto]. apply dict_get_Some_elem in Hg.
    apply list_elem_of_fmap. by eexists (_, _).
  - apply dict_get_None in Hg. split; [by intros [? ?]|done].
Qed.

Lemma dict_get_snoc k k' v d :
  dict_get k (d ++ [(k', v)]) =
  match dict_get k d with
  | Some x => Some x
  | None => if decide (k = k') then Some v else None
  end.
Proof.
  induction d as [|[k0 v0] d IH]; simpl; [done|].
  by destruct (decide (k = k0)).
Qed.

Lemma upd_fst f k kv : (upd f k kv).1 = kv.1.
Proof. unfold upd. by destruct (decide _). Qed.

Lemma upd_absent f k d : k ∉ d.*1 → upd f k <$> d = d.
Proof.
  induction d as [|[k' v] d IH]; csimpl; [done|].
  rewrite not_elem_of_cons. intros [Hne Hd].
  rewrite IH by done. unfold upd; simpl. by rewrite decide_False.
Qed.

(** On a dictionary (keys without duplicates) [dict_alter] is a map. *)
Lemma dict_alter_fmap f k d : NoDup d.*1 → dict_alter f k d = upd f k <$> d.
Proof.
  induction d as [|[k' v] d IH]; csimpl; [done|].
  intros [Hk' Hnd]%NoDup_cons. unfold upd at 1; simpl.
  destruct (decide (k = k')) as [->|Hne].
  - by rewrite (upd_absent f k' d).
  - by rewrite IH.
Qed.

Lemma dict_alter_keys f k d : (dict_alter f k d).*1 = d.*1.
Proof.
  induction d as [|[k' v] d IH]; csimpl; [done|].
  destruct (decide (k = k')); csimpl; by rewrite ?IH.
Qed.

Lemma dict_set_keys k v d :
  (dict_set k v d).*1 = if decide (k ∈ d.*1) then d.*1 else d.*1 ++ [k].
Proof.
  unfold dict_set. destruct (dict_get k d) eqn:Hg.
  - rewrite decide_True; [apply dict_alter_keys|].
    apply dict_get_is_Some. eauto.
  - apply dict_get_None in Hg. rewrite decide_False by done.
    by rewrite fmap_app.
Qed.
End DictFacts.

(** ** The first loop: what [team_event] holds *)

Lemma max0_snoc l x : max0 (l ++ [x]) = Z.max (max0 l) x.
Proof. unfold max0. by rewrite foldl_app. Qed.

Lemma scores_of_snoc k ty runs r :
  scores_of k ty (runs ++ [r]) =
  scores_of k ty runs ++
    (if decide (run_key r = k ∧ skill_type r = ty) then [score r] else []).
Proof.
  unfold scores_of. rewrite filter_app, fmap_app. f_equal.
  rewrite filter_cons, filter_nil. by destruct (decide _).
Qed.

Lemma scores_of_absent k ty runs :
  (∀ r, r ∈ runs → run_key r ≠ k) → scores_of k ty runs = [].
Proof.
  intros Hk. unfold scores_of.
  induction runs as [|r runs IH]; [done|].
  rewrite filter_cons, decide_False.
  - apply IH. intros r' Hr'. apply Hk. by right.
  - intros [Hr _]. apply (Hk r); [left|done].
Qed.

Lemma team_event_snoc runs r :
  team_event (runs ++ [r]) = add_run (team_event runs) r.
Proof. unfold team_event. by rewrite foldl_app. Qed.

Lemma add_run_keys te r :
  (add_run te r).*1 =
  if decide (run_key r ∈ te.*1) then te.*1 else te.*1 ++ [run_key r].
Proof.
  unfold add_run.
  assert ((match dict_get (run_key r) te with
           | Some _ => te
           | None => te ++ [(run_key r, new_group r)]
           end).*1
          = if decide (run_key r ∈ te.*1) then te.*1 else te.*1 ++ [run_key r])
    as Hk.
  { destruct (dict_get (run_key r) te) eqn:Hg.
    - rewrite decide_True; [done|]. apply dict_get_is_Some; eauto.
    - apply dict_get_None in Hg. rewrite decide_False by done.
      by rewrite fmap_app. }
  repeat case_decide; rewrite ?dict_alter_keys; done.
Qed.

Lemma add_run_fmap te r :
  NoDup te.*1 →
  add_run te r =
  upd (apply_run r) (run_key r) <$>
    (if decide (run_key r ∈ te.*1) then te else te ++ [(run_key r, new_group r)]).
Proof.
  intros Hnd. unfold add_run.
  set (te1 := match dict_get (run_key r) te with
              | Some _ => te
              | None => te ++ [(run_key r, new_group r)]
              end).
  assert (te1 = if decide (run_key r ∈ te.*1) then te
                else te ++ [(run_key r, new_group r)]) as Hte1.
  { unfold te1. destruct (dict_get (run_key r) te) eqn:Hg.
    - rewrite decide_True; [done|]. apply dict_get_is_Some; eauto.
    - apply dict_get_None in Hg. by rewrite decide_False. }
  assert (NoDup te1.*1) as Hnd1.
  { rewrite Hte1. case_decide as Hin; [done|].
    rewrite fmap_app. apply NoDup_app. split_and!; [done| |apply NoDup_singleton].
    intros k Hk Hk'. apply list_elem_of_singleton in Hk'. by subst. }
  rewrite <- Hte1.
  assert (∀ f, upd f (run_key r) <$> te1 = dict_alter f (run_key r) te1) as Hf.
  { intros f. by rewrite dict_alter_fmap. }
  assert (upd (λ g, g) (run_key r) <$> te1 = te1) as Hid.
  { clear. induction te1 as [|[k g] te1 IH]; csimpl; [done|].
    rewrite IH. unfold upd; simpl. by case_decide. }
  clear Hte1. unfold apply_run.
  repeat case_decide; first [symmetry; apply Hf | by rewrite Hid].
Qed.

Lemma apply_run_ok runs r g :
  group_ok runs (run_key r, g) →
  group_ok (runs ++ [r]) (run_key r, apply_run r g).
Proof.
  unfold group_ok; simpl. intros (Ht & He & Hd & Hp).
  rewrite !scores_of_snoc. unfold apply_run.
  destruct (decide (skill_type r = "driver")) as [Hty|Hty].
  - rewrite (decide_True (P := _ ∧ skill_type r = "driver")) by done.
    rewrite decide_False by (rewrite Hty; intros [_ ?]; done).
    rewrite max0_snoc, app_nil_r. simpl. by rewrite Hd.
  - rewrite (decide_False (P := _ ∧ skill_type r = "driver")) by tauto.
    rewrite app_nil_r.
    destruct (decide (skill_type r = "programming")) as [Hty'|Hty'].
    + rewrite decide_True by done. rewrite max0_snoc. simpl. by rewrite Hp.
    + rewrite decide_False by tauto. by rewrite app_nil_r.
Qed.

Lemma group_ok_other runs r kg :
  kg.1 ≠ run_key r → group_ok runs kg → group_ok (runs ++ [r]) kg.
Proof.
  unfold group_ok. intros Hne (Ht & He & Hd & Hp).
  rewrite !scores_of_snoc.
  rewrite !decide_False by (intros [? _]; congruence).
  by rewrite !app_nil_r.
Qed.

(** The invariant of the first loop. *)
Lemma team_event_inv runs :
  NoDup (team_event runs).*1 ∧
  (∀ k, k ∈ (team_event runs).*1 ↔ ∃ r, r ∈ runs ∧ run_key r = k) ∧
  Forall (group_ok runs) (team_event runs).
Proof.
  induction runs as [|r runs (Hnd & Hkeys & Hok)] using rev_ind.
  - split_and!; [apply NoDup_nil_2| |apply Forall_nil_2].
    intros k. split; [by intros ?%elem_of_nil|].
    by intros (r & ?%elem_of_nil & _).
  - rewrite team_event_snoc. split_and!.
    + rewrite add_run_keys. case_decide as Hin; [done|].
      apply NoDup_app. split_and!; [done| |apply NoDup_singleton].
      intros k Hk ->%list_elem_of_singleton. done.
    + intros k. rewrite add_run_keys.
      setoid_rewrite elem_of_app. setoid_rewrite list_elem_of_singleton.
      case_decide as Hin.
      * rewrite Hkeys. split.
        -- intros (r' & ? & ?); eauto.
        -- intros (r' & [?| ->] & Hr'); [eauto|].
           subst k. by apply Hkeys.
      * rewrite elem_of_app, list_elem_of_singleton, Hkeys. split.
        -- intros [(r' & ? & ?)| ->]; eauto.
        -- intros (r' & [?| ->] & Hr'); eauto.
    + rewrite add_run_fmap by done. apply Forall_fmap.
      assert (Forall (group_ok (runs ++ [r]) ∘ upd (apply_run r) (run_key r))
                (team_event runs)) as Hold.
      { eapply Forall_impl; [exact Hok|]. intros [k g] Hkg. simpl.
        unfold upd; simpl. case_decide as Hk.
        - subst k. by apply apply_run_ok.
        - apply group_ok_other; [simpl; congruence|done]. }
      case_decide as Hin; [done|].
      apply Forall_app. split; [done|]. apply Forall_singleton. simpl.
      unfold upd; simpl. rewrite decide_True by done.
      apply apply_run_ok. unfold group_ok; simpl.
      rewrite !scores_of_absent; [done| |].
      all: intros r' Hr' Hk; apply Hin, Hkeys; eauto.
Qed.

Lemma first_pos_lt k runs a : first_pos k runs = Some a → (a < length runs)%nat.
Proof.
  unfold first_pos. intros ([a' r] & Hf & ->)%fmap_Some.
  apply list_find_Some in Hf as (Hl & _). by apply lookup_lt_Some in Hl.
Qed.

Lemma first_pos_is_Some k runs :
  is_Some (first_pos k runs) ↔ ∃ r, r ∈ runs ∧ run_key r = k.
Proof.
  unfold first_pos. rewrite fmap_is_Some. split.
  - intros [[a r] (Hl & Hk & _)%list_find_Some].
    exists r. split; [by eapply list_elem_of_lookup_2|done].
  - intros (r & Hr & Hk). by eapply list_find_elem_of.
Qed.

Lemma first_pos_app_l k runs runs' a :
  first_pos k runs = Some a → first_pos k (runs ++ runs') = Some a.
Proof.
  unfold first_pos. intros ([a' r] & Hf & ->)%fmap_Some.
  by erewrite list_find_app_l.
Qed.

Lemma first_pos_snoc_new r runs :
  first_pos (run_key r) runs = None →
  first_pos (run_key r) (runs ++ [r]) = Some (length runs).
Proof.
  unfold first_pos. intros Hn%fmap_None.
  rewrite list_find_app_r by done. simpl.
  rewrite decide_True by done. simpl. done.
Qed.

Lemma first_pos_lookup k runs a :
  first_pos k runs = Some a → ∃ r, runs !! a = Some r ∧ run_key r = k.
Proof.
  unfold first_pos. intros ([a' r] & Hf & ->)%fmap_Some.
  apply list_find_Some in Hf as (Hl & Hk & _). eauto.
Qed.

Lemma apply_run_labels r g :
  g_team_number (apply_run r g) = g_team_number g ∧
  g_event_name (apply_run r g) = g_event_name g.
Proof. unfold apply_run. by repeat case_decide. Qed.

Lemma upd_apply_run_labels (r : run) (k : key) (kg : key * group) :
  (upd (apply_run r) k kg).1 = kg.1 ∧
  g_team_number (upd (apply_run r) k kg).2 = g_team_number kg.2 ∧
  g_event_name (upd (apply_run r) k kg).2 = g_event_name kg.2.
Proof.
  unfold upd. case_decide; [|done]. cbn [fst snd].
  by destruct (apply_run_labels r kg.2) as [-> ->].
Qed.

(** The labels of a group are set when the group is made, from the run that
    makes it, and stay. *)
Lemma team_event_labels runs : Forall (labels_ok runs) (team_event runs).
Proof.
  induction runs as [|r runs IH] using rev_ind; [apply Forall_nil_2|].
  destruct (team_event_inv runs) as (Hnd & Hkeys & _).
  rewrite team_event_snoc, add_run_fmap by done. apply Forall_fmap.
  assert (Forall (labels_ok (runs ++ [r]) ∘ upd (apply_run r) (run_key r))
            (team_event runs)) as Hold.
  { eapply Forall_impl; [exact IH|].
    intros kg (a & r0 & Ha & Hr0 & Htn & Hen). cbn [compose].
    destruct (upd_apply_run_labels r (run_key r) kg) as (Hk & Htn' & Hen').
    exists a, r0. rewrite Hk, Htn', Hen'.
    split_and!; [by apply first_pos_app_l|by apply lookup_app_l_Some|done..]. }
  case_decide as Hin; [done|].
  apply Forall_app. split; [done|]. apply Forall_singleton. cbn [compose].
  destruct (upd_apply_run_labels r (run_key r) (run_key r, new_group r))
    as (Hk & Htn' & Hen').
  exists (length runs), r. rewrite Hk, Htn', Hen'. cbn [fst snd].
  split_and!; [|by apply list_lookup_middle|done..].
  apply first_pos_snoc_new. apply eq_None_not_Some.
  by rewrite first_pos_is_Some, <- Hkeys.
Qed.

(** Groups stand in [team_event] in the order of their first run. *)
Lemma team_event_order runs i j ki kj :
  (team_event runs).*1 !! i = Some ki →
  (team_event runs).*1 !! j = Some kj →
  (i < j)%nat →
  ∃ a b, first_pos ki runs = Some a ∧ first_pos kj runs = Some b ∧ (a < b)%nat.
Proof.
  revert i j ki kj.
  induction runs as [|r runs IH] using rev_ind; intros i j ki kj.
  - done.
  - destruct (team_event_inv runs) as (Hnd & Hkeys & _).
    rewrite team_event_snoc, add_run_keys. case_decide as Hin.
    + intros Hi Hj Hij. destruct (IH _ _ _ _ Hi Hj Hij) as (a & b & Ha & Hb & Hab).
      exists a, b. eauto using first_pos_app_l.
    + intros Hi [Hj|[Hlen Hj]]%lookup_app_Some Hij.
      * rewrite lookup_app_l in Hi by (apply lookup_lt_Some in Hj; lia).
        destruct (IH _ _ _ _ Hi Hj Hij) as (a & b & Ha & Hb & Hab).
        exists a, b. eauto using first_pos_app_l.
      * apply list_lookup_singleton_Some in Hj as [Hj <-].
        rewrite lookup_app_l in Hi by lia.
        assert (is_Some (first_pos ki runs)) as [a Ha].
        { apply first_pos_is_Some, Hkeys. by eapply list_elem_of_lookup_2. }
        exists a, (length runs). split_and!.
        -- by apply first_pos_app_l.
        -- apply first_pos_snoc_new. apply eq_None_not_Some.
           rewrite first_pos_is_Some, <- Hkeys. done.
        -- by eapply first_pos_lt.
Qed.

(** ** The second loop: what [best_per_team] holds *)

Lemma best_group_snoc_other te t i g x :
  best_group te t i g → g_team_id x.2 ≠ t → best_group (te ++ [x]) t i g.
Proof.
  intros ([k Hi] & Ht & Hbest) Hx. split_and!; [|done|].
  - exists k. by apply lookup_app_l_Some.
  - intros j k' g' [Hj|[_ Hj]]%lookup_app_Some Hg'; [eauto|].
    apply list_lookup_singleton_Some in Hj as [_ ->]. done.
Qed.

Lemma best_group_snoc_keep te t i g x :
  best_group te t i g → ¬ (g_combined g < g_combined x.2) →
  best_group (te ++ [x]) t i g.
Proof.
  intros ([k Hi] & Ht & Hbest) Hx. split_and!; [|done|].
  - exists k. by apply lookup_app_l_Some.
  - intros j k' g' [Hj|[Hlen Hj]]%lookup_app_Some Hg'; [eauto|].
    apply list_lookup_singleton_Some in Hj as [_ ->]. simpl in *.
    apply lookup_lt_Some in Hi. split; lia.
Qed.

Lemma best_group_snoc_new te t k g :
  g_team_id g = t →
  (∀ j k' g', te !! j = Some (k', g') → g_team_id g' = t →
     g_combined g' < g_combined g) →
  best_group (te ++ [(k, g)]) t (length te) g.
Proof.
  intros Ht Hlt. split_and!; [|done|].
  - exists k. by apply list_lookup_middle.
  - intros j k' g' [Hj|[Hlen Hj]]%lookup_app_Some Hg'.
    + specialize (Hlt _ _ _ Hj Hg'). split; lia.
    + apply list_lookup_singleton_Some in Hj as [_ [= <- <-]]. split; lia.
Qed.

Lemma best_per_team_snoc te x :
  best_per_team (te ++ [x]) = add_best (best_per_team te) x.
Proof. unfold best_per_team. by rewrite foldl_app. Qed.

Lemma add_best_keys bpt x :
  (add_best bpt x).*1 =
  if decide (g_team_id x.2 ∈ bpt.*1) then bpt.*1 else bpt.*1 ++ [g_team_id x.2].
Proof.
  unfold add_best. destruct (dict_get _ bpt) as [b|] eqn:Hg.
  - assert (g_team_id x.2 ∈ bpt.*1) by (apply dict_get_is_Some; eauto).
    case_bool_decide; [rewrite dict_set_keys|]; by rewrite decide_True.
  - rewrite dict_set_keys. done.
Qed.

(** The invariant of the second loop. *)
Lemma best_per_team_inv te :
  NoDup (best_per_team te).*1 ∧
  (∀ t, t ∈ (best_per_team te).*1 ↔ ∃ kg, kg ∈ te ∧ g_team_id kg.2 = t) ∧
  Forall (best_ok te) (best_per_team te).
Proof.
  induction te as [|[k g] te (Hnd & Hkeys & Hok)] using rev_ind.
  - split_and!; [apply NoDup_nil_2| |apply Forall_nil_2].
    intros t. split; [by intros ?%elem_of_nil|].
    by intros (r & ?%elem_of_nil & _).
  - rewrite best_per_team_snoc. split_and!.
    + rewrite add_best_keys. case_decide as Hin; [done|].
      apply NoDup_app. split_and!; [done| |apply NoDup_singleton].
      intros t Ht ->%list_elem_of_singleton. done.
    + intros t. rewrite add_best_keys.
      setoid_rewrite elem_of_app. setoid_rewrite list_elem_of_singleton.
      case_decide as Hin.
      * rewrite Hkeys. split.
        -- intros (r' & ? & ?); eauto.
        -- intros (r' & [?| ->] & Hr'); [eauto|].
           subst t. by apply Hkeys.
      * rewrite elem_of_app, list_elem_of_singleton, Hkeys. split.
        -- intros [(r' & ? & ?)| ->]; eauto.
        -- intros (r' & [?| ->] & Hr'); eauto.
    + unfold add_best; simpl. apply Forall_forall.
      destruct (dict_get (g_team_id g) (best_per_team te)) as [b|] eqn:Hg.
      * assert (best_ok te (g_team_id g, b)) as (i & g0 & Hb & Hg0).
        { eapply Forall_forall; [exact Hok|]. by apply dict_get_Some_elem. }
        simpl in Hb, Hg0. case_bool_decide as Hlt.
        -- unfold dict_set. rewrite Hg, dict_alter_fmap by done.
           intros tb ([t b'] & -> & Hin)%list_elem_of_fmap.
           destruct (proj1 (Forall_forall (best_ok te) _) Hok (t, b') Hin)
             as (i' & g' & Hb' & Hg').
           simpl in *. unfold upd; simpl. case_decide as Ht.
           ++ subst t. exists (length te), g. split; [done|]. simpl.
              apply best_group_snoc_new; [done|].
              intros j k1 g1 Hj Hg1. destruct Hg0 as (_ & _ & Hmax).
              destruct (Hmax _ _ _ Hj Hg1) as [Hle _].
              rewrite Hb in Hlt. simpl in Hlt. unfold g_combined in *. lia.
           ++ exists i', g'. split; [done|]. simpl.
              apply best_group_snoc_other; [done|]. simpl. congruence.
        -- intros [t b'] Hin.
           destruct (proj1 (Forall_forall (best_ok te) _) Hok (t, b') Hin)
             as (i' & g' & Hb' & Hg').
           simpl in *. exists i', g'. split; [done|]. simpl.
           destruct (decide (g_team_id g = t)) as [<-|Hne].
           ++ apply best_group_snoc_keep; [done|]. simpl.
              assert (b' = b) as ->.
              { apply (dict_get_elem _ _ _ Hnd) in Hin. congruence. }
              rewrite Hb' in Hlt. simpl in Hlt. unfold g_combined. lia.
           ++ by apply best_group_snoc_other.
      * unfold dict_set. rewrite Hg.
        apply dict_get_None in Hg.
        intros [t b'] [Hin|Hin]%elem_of_app.
        -- destruct (proj1 (Forall_forall (best_ok te) _) Hok (t, b') Hin)
             as (i' & g' & Hb' & Hg').
           simpl in *. exists i', g'. split; [done|]. simpl.
           apply best_group_snoc_other; [done|]. simpl. intros <-.
           apply Hg, list_elem_of_fmap. by exists (g_team_id g, b').
        -- apply list_elem_of_singleton in Hin as [= -> ->].
           exists (length te), g. split; [done|]. simpl.
           apply best_group_snoc_new; [done|].
           intros j k1 g1 Hj Hg1. exfalso. apply Hg, Hkeys.
           exists (k1, g1). split; [by eapply list_elem_of_lookup_2|done].
Qed.

(** ** The sort *)

Global Instance entry_le_trans : Transitive entry_le.
Proof. intros a b c. unfold entry_le, key_le. lia. Qed.

Lemma entry_le_total a b : ¬ entry_le a b → entry_le b a.
Proof. unfold entry_le, key_le. lia. Qed.

Lemma entry_le_antisym_key a b : entry_le a b → entry_le b a → sort_key a = sort_key b.
Proof.
  unfold entry_le, key_le. destruct (sort_key a), (sort_key b); simpl.
  intros. f_equal; lia.
Qed.

Lemma insert_by_perm x l : insert_by x l ≡ₚ x :: l.
Proof.
  induction l as [|y l IH]; simpl; [done|].
  case_decide; [done|]. rewrite IH. apply Permutation_swap.
Qed.

Lemma sorted_perm l : sorted l ≡ₚ l.
Proof.
  induction l as [|x l IH]; simpl; [done|].
  by rewrite insert_by_perm, IH.
Qed.

Lemma insert_by_HdRel x y l :
  entry_le y x → HdRel entry_le y l → HdRel entry_le y (insert_by x l).
Proof.
  intros Hyx Hhd. destruct l as [|z l]; simpl; [by constructor|].
  case_decide; constructor; [done|]. by inversion Hhd.
Qed.

Lemma insert_by_Sorted x l :
  Sorted entry_le l → Sorted entry_le (insert_by x l).
Proof.
  induction 1 as [|y l Hs IH Hhd]; simpl.
  - by repeat constructor.
  - case_decide as Hxy.
    + constructor; [by constructor|by constructor].
    + constructor; [done|]. apply insert_by_HdRel; [|done].
      by apply entry_le_total.
Qed.

Lemma sorted_Sorted l : Sorted entry_le (sorted l).
Proof.
  induction l as [|x l IH]; simpl; [constructor|].
  by apply insert_by_Sorted.
Qed.

Lemma StronglySorted_lookup {A} (R : relation A) (l : list A) i j a b :
  StronglySorted R l → l !! i = Some a → l !! j = Some b → (i < j)%nat → R a b.
Proof.
  intros Hs. revert i j. induction Hs as [|x l Hs IH Hall]; intros i j; [done|].
  destruct j as [|j]; [lia|]. destruct i as [|i]; simpl.
  - intros [= <-] Hb _. eapply Forall_forall; [exact Hall|].
    by eapply list_elem_of_lookup_2.
  - intros Ha Hb Hij. apply (IH i j); [done..|lia].
Qed.

(** Stability: entries with one and the same key keep their order. *)
Lemma insert_by_stable kz x l :
  filter (λ e, sort_key e = kz) (insert_by x l) =
  filter (λ e, sort_key e = kz) (x :: l).
Proof.
  induction l as [|y l IH]; simpl; [done|].
  case_decide as Hxy; [done|].
  rewrite (filter_cons _ y), IH, !(filter_cons _ x), (filter_cons _ y).
  destruct (decide (sort_key x = kz)) as [Hx|Hx]; [|done].
  destruct (decide (sort_key y = kz)) as [Hy|Hy]; [|done].
  exfalso. apply Hxy. unfold entry_le in *. rewrite Hx, Hy.
  unfold key_le. lia.
Qed.

Lemma sorted_stable kz l :
  filter (λ e, sort_key e = kz) (sorted l) = filter (λ e, sort_key e = kz) l.
Proof.
  induction l as [|x l IH]; simpl; [done|].
  by rewrite insert_by_stable, !filter_cons, IH.
Qed.

(** ** The leaderboard as a whole *)

Lemma max0_is_max l : Forall (λ s, 0 ≤ s) l → is_max_or_zero (max0 l) l.
Proof.
  induction l as [|x l IH] using rev_ind; intros Hall.
  - by left.
  - apply Forall_app in Hall as [Hl [Hx _]%Forall_cons].
    rewrite max0_snoc. right. destruct (IH Hl) as [[-> H0]|[Hin Hub]].
    + rewrite H0. simpl. rewrite Z.max_r by done. split; [left|].
      by intros s ->%list_elem_of_singleton.
    + split.
      * destruct (Z.max_spec (max0 l) x) as [[_ ->]|[_ ->]];
          rewrite elem_of_app, list_elem_of_singleton; auto.
      * intros s [Hs| ->%list_elem_of_singleton]%elem_of_app; [|lia].
        specialize (Hub _ Hs). lia.
Qed.

Lemma scores_of_nonneg k ty runs :
  Forall (λ r, 0 ≤ score r) runs → Forall (λ s, 0 ≤ s) (scores_of k ty runs).
Proof.
  intros Hall. unfold scores_of. apply Forall_fmap, Forall_forall.
  intros r [_ Hr]%list_elem_of_filter.
  by apply (proj1 (Forall_forall _ _) Hall).
Qed.

Lemma best_ok_team te t b : best_ok te (t, b) → team_id b = t.
Proof. intros (i & g & Hb & _ & Ht & _). simpl in *. by subst b. Qed.

Lemma best_ok_unranked te t b : best_ok te (t, b) → unrank b = b.
Proof. intros (i & g & Hb & _). simpl in *. by subst b. Qed.

Lemma set_rank_team i e : team_id (set_rank i e) = team_id e.
Proof. done. Qed.

Lemma unrank_set_rank i e : unrank (set_rank i e) = unrank e.
Proof. done. Qed.

Lemma fmap_imap_set_rank {B} (f : entry → B) l :
  (∀ i e, f (set_rank i e) = f e) → f <$> imap set_rank l = f <$> l.
Proof.
  intros Hf. apply list_eq. intros i.
  rewrite !list_lookup_fmap, list_lookup_imap.
  destruct (l !! i); simpl; by rewrite ?Hf.
Qed.

(** Every entry of the leaderboard is made from one group of [team_event],
    the one selected for its team. *)
Lemma aggregate_entry runs e :
  e ∈ aggregate_skills runs →
  ∃ idx i k g,
    e = set_rank idx (best_of g) ∧
    team_event runs !! i = Some (k, g) ∧
    best_group (team_event runs) (team_id e) i g ∧
    group_ok runs (k, g).
Proof.
  unfold aggregate_skills. intros (idx & b & -> & Hb)%elem_of_lookup_imap.
  apply list_elem_of_lookup_2 in Hb. rewrite sorted_perm in Hb.
  apply list_elem_of_fmap in Hb as ([t b'] & -> & Hin). simpl.
  destruct (best_per_team_inv (team_event runs)) as (_ & _ & Hok).
  destruct (proj1 (Forall_forall _ _) Hok _ Hin) as (i & g & Hg & Hbest).
  simpl in Hg, Hbest. subst b'.
  destruct Hbest as ([k Hi] & Ht & Hmax).
  exists idx, i, k, g. split_and!; [done|done| |].
  - split_and!; [eauto|done|]. simpl. by rewrite Ht.
  - destruct (team_event_inv runs) as (_ & _ & Hgok).
    eapply (proj1 (Forall_forall _ _) Hgok). by eapply list_elem_of_lookup_2.
Qed.

Lemma leaderboard_teams runs :
  team_id <$> aggregate_skills runs ≡ₚ (best_per_team (team_event runs)).*1.
Proof.
  unfold aggregate_skills. rewrite fmap_imap_set_rank by done.
  rewrite sorted_perm.
  destruct (best_per_team_inv (team_event runs)) as (_ & _ & Hok).
  induction Hok as [|[t b] l Hb Hl IH]; csimpl; [done|].
  by rewrite IH, (best_ok_team _ _ _ Hb).
Qed.

Lemma leaderboard_teams_NoDup runs : NoDup (team_id <$> aggregate_skills runs).
Proof.
  rewrite leaderboard_teams.
  by destruct (best_per_team_inv (team_event runs)) as (? & _ & _).
Qed.

Lemma leaderboard_has_team runs r :
  r ∈ runs → (run_key r).1 ∈ team_id <$> aggregate_skills runs.
Proof.
  intros Hr. rewrite leaderboard_teams.
  destruct (best_per_team_inv (team_event runs)) as (_ & Hkeys & _).
  destruct (team_event_inv runs) as (_ & Hte & Hok).
  apply Hkeys.
  assert (run_key r ∈ (team_event runs).*1) as Hk by (apply Hte; eauto).
  apply list_elem_of_fmap in Hk as ([k g] & Hkg & Hin). simpl in Hkg. subst k.
  exists (run_key r, g). split; [done|].
  by destruct (proj1 (Forall_forall _ _) Hok _ Hin) as (? & _).
Qed.

(** ** Claims on [aggregate_skills] *)

(** C1. With scores that are not negative, every entry of the leaderboard
    returned by [aggregate_skills] has its combined score equal to the sum of
    its driver and programming scores, and there is one event of the entry's
    team, with a run in the input, such that the driver score is the largest
    score of the team's driver runs at that event and the programming score
    the largest score of its programming runs there, a kind without a run at
    that event counting as zero. *)
Theorem aggregate_skills_combined_sum (runs : list run) (e : entry) :
  Forall (λ r, 0 ≤ score r) runs →
  e ∈ aggregate_skills runs →
  combined e = driver e + programming e ∧
  ∃ ev,
    (∃ r, r ∈ runs ∧ run_key r = (team_id e, ev)) ∧
    is_max_or_zero (driver e) (scores_of (team_id e, ev) "driver" runs) ∧
    is_max_or_zero (programming e)
      (scores_of (team_id e, ev) "programming" runs).
Proof.
  intros Hpos (idx & i & [t ev] & g & -> & Hi & Hbest & Hok)%aggregate_entry.
  split; [done|]. simpl.
  destruct Hok as (Ht & Hev & Hd & Hp). simpl in *.
  destruct (team_event_inv runs) as (_ & Hkeys & _).
  exists ev. rewrite Ht. split_and!.
  - apply Hkeys. apply list_elem_of_fmap. exists ((t, ev), g).
    split; [done|]. by eapply list_elem_of_lookup_2.
  - rewrite Hd. by apply max0_is_max, scores_of_nonneg.
  - rewrite Hp. by apply max0_is_max, scores_of_nonneg.
Qed.

Lemma aggregate_skills_combined_sum_witness :
  Forall (λ r, 0 ≤ score r) scenario_200B ∧
  entry_200B ∈ aggregate_skills scenario_200B ∧
  (combined entry_200B = driver entry_200B + programming entry_200B ∧
   ∃ ev,
     (∃ r, r ∈ scenario_200B ∧ run_key r = (team_id entry_200B, ev)) ∧
     is_max_or_zero (driver entry_200B)
       (scores_of (team_id entry_200B, ev) "driver" scenario_200B) ∧
     is_max_or_zero (programming entry_200B)
       (scores_of (team_id entry_200B, ev) "programming" scenario_200B)).
Proof.
  assert (Forall (λ r, 0 ≤ score r) scenario_200B) as H1.
  { apply (bool_decide_unpack _). vm_compute. exact I. }
  assert (entry_200B ∈ aggregate_skills scenario_200B) as H2.
  { apply (bool_decide_unpack _). vm_compute. exact I. }
  split; [exact H1|]. split; [exact H2|].
  exact (aggregate_skills_combined_sum scenario_200B entry_200B H1 H2).
Defined.

(** C2. The entry of a team comes from one of the team's (team, event)
    groups, and from that group alone: its team name and its event name are
    those of the first run of the group in the input, its driver and
    programming scores are the group's, and so is its combined score; no
    group of the team has a higher combined score, and every group of the
    team that was first met earlier in the input has a strictly lower one.
    Every team with a run has exactly one entry. *)
Theorem aggregate_skills_selects_best_event (runs : list run) (e : entry) :
  e ∈ aggregate_skills runs →
  (∃ ev a r0,
     first_pos (team_id e, ev) runs = Some a ∧
     runs !! a = Some r0 ∧
     run_key r0 = (team_id e, ev) ∧
     team_number e = team_label r0 ∧
     event_name e = event_label r0 ∧
     driver e = max0 (scores_of (team_id e, ev) "driver" runs) ∧
     programming e = max0 (scores_of (team_id e, ev) "programming" runs) ∧
     combined e = group_combined (team_id e, ev) runs ∧
     ∀ ev' b,
       first_pos (team_id e, ev') runs = Some b →
       group_combined (team_id e, ev') runs ≤ combined e ∧
       ((b < a)%nat → group_combined (team_id e, ev') runs < combined e)) ∧
  NoDup (team_id <$> aggregate_skills runs) ∧
  (∀ r, r ∈ runs → (run_key r).1 ∈ team_id <$> aggregate_skills runs).
Proof.
  intros (idx & i & [t ev] & g & -> & Hi & Hbest & Hok)%aggregate_entry.
  split; [|split; [apply leaderboard_teams_NoDup|apply leaderboard_has_team]].
  simpl in *. destruct Hok as (Ht & Hev & Hd & Hp). simpl in *.
  destruct (team_event_inv runs) as (Hnd & Hkeys & Hgok).
  assert (((team_event runs).*1) !! i = Some (t, ev)) as Hki.
  { by rewrite list_lookup_fmap, Hi. }
  assert (labels_ok runs ((t, ev), g)) as (a & r0 & Ha & Hr0 & Htn & Hen).
  { eapply (proj1 (Forall_forall _ _) (team_event_labels runs)).
    by eapply list_elem_of_lookup_2. }
  cbn [fst snd] in Ha, Htn, Hen.
  destruct (first_pos_lookup _ _ _ Ha) as (r0' & Hr0' & Hk0).
  assert (r0' = r0) as -> by congruence.
  rewrite Ht. exists ev, a, r0. unfold group_combined.
  split_and!; [done|done|done|done|done|done|done|by rewrite Hd, Hp|].
  intros ev' b Hb.
  assert ((t, ev') ∈ (team_event runs).*1) as Hin.
  { apply Hkeys, first_pos_is_Some. eauto. }
  apply list_elem_of_lookup_1 in Hin as [j Hkj].
  pose proof Hkj as Hj. rewrite list_lookup_fmap in Hj.
  apply fmap_Some in Hj as ([k' g'] & Hj & Hk'). simpl in Hk'. subst k'.
  assert (group_ok runs ((t, ev'), g')) as (Ht' & _ & Hd' & Hp').
  { eapply (proj1 (Forall_forall _ _) Hgok). by eapply list_elem_of_lookup_2. }
  simpl in *. destruct Hbest as (_ & _ & Hmax).
  destruct (Hmax j _ _ Hj) as [Hle Hlt]; [congruence|].
  unfold g_combined in *. rewrite <- Hd', <- Hp'. split; [done|].
  intros Hba. apply Hlt.
  destruct (decide (j < i)%nat) as [|Hge]; [done|]. exfalso.
  destruct (decide (j = i)) as [->|Hne].
  - assert (ev' = ev) as -> by congruence.
    assert (b = a) by congruence. lia.
  - destruct (team_event_order runs i j _ _ Hki Hkj) as (a' & b' & Ha' & Hb' & ?);
      [lia|].
    assert (a' = a) by congruence. assert (b' = b) by congruence. lia.
Qed.

Lemma aggregate_skills_selects_best_event_witness :
  entry_tie ∈ aggregate_skills scenario_tie ∧
  ((∃ ev a r0,
      first_pos (team_id entry_tie, ev) scenario_tie = Some a ∧
      scenario_tie !! a = Some r0 ∧
      run_key r0 = (team_id entry_tie, ev) ∧
      team_number entry_tie = team_label r0 ∧
      event_name entry_tie = event_label r0 ∧
      driver entry_tie
        = max0 (scores_of (team_id entry_tie, ev) "driver" scenario_tie) ∧
      programming entry_tie
        = max0 (scores_of (team_id entry_tie, ev) "programming" scenario_tie) ∧
      combined entry_tie = group_combined (team_id entry_tie, ev) scenario_tie ∧
      ∀ ev' b,
        first_pos (team_id entry_tie, ev') scenario_tie = Some b →
        group_combined (team_id entry_tie, ev') scenario_tie
          ≤ combined entry_tie ∧
        ((b < a)%nat →
         group_combined (team_id entry_tie, ev') scenario_tie
           < combined entry_tie)) ∧
   NoDup (team_id <$> aggregate_skills scenario_tie) ∧
   (∀ r, r ∈ scenario_tie →
      (run_key r).1 ∈ team_id <$> aggregate_skills scenario_tie)).
Proof.
  assert (entry_tie ∈ aggregate_skills scenario_tie) as H1.
  { apply (bool_decide_unpack _). vm_compute. exact I. }
  split; [exact H1|].
  exact (aggregate_skills_selects_best_event scenario_tie entry_tie H1).
Defined.

(** C3. The leaderboard is ordered by combined score, highest first, and
    among equal combined scores by programming score, highest first; entries
    that agree on both keep the order they had in [best_per_team.values()],
    the list handed to the sort; the entry at position [i] (from zero) has
    rank [i + 1]. *)
Theorem aggregate_skills_order_and_ranks (runs : list run) :
  let lb := aggregate_skills runs in
  let before := (best_per_team (team_event runs)).*2 in
  (∀ i j a b, lb !! i = Some a → lb !! j = Some b → (i < j)%nat →
     combined b < combined a ∨
     (combined b = combined a ∧ programming b ≤ programming a)) ∧
  unrank <$> lb ≡ₚ before ∧
  (∀ c p,
     filter (λ e, combined e = c ∧ programming e = p) (unrank <$> lb) =
     filter (λ e, combined e = c ∧ programming e = p) before) ∧
  (∀ i a, lb !! i = Some a → rank a = Some (Z.of_nat i + 1)).
Proof.
  intros lb before.
  assert (unrank <$> lb = sorted before) as Hun.
  { unfold lb, aggregate_skills. fold before.
    rewrite fmap_imap_set_rank by done.
    assert (Forall (λ b, unrank b = b) (sorted before)) as Hall.
    { rewrite sorted_perm. unfold before. apply Forall_fmap.
      destruct (best_per_team_inv (team_event runs)) as (_ & _ & Hok).
      eapply Forall_impl; [exact Hok|].
      intros [t b] Hb. by eapply best_ok_unranked. }
    induction Hall as [|b l Hb Hl IH]; csimpl; [done|]. by rewrite Hb, IH. }
  split_and!.
  - intros i j a b Ha Hb Hij. unfold lb, aggregate_skills in Ha, Hb.
    fold before in Ha, Hb. rewrite list_lookup_imap in Ha, Hb.
    apply fmap_Some in Ha as (a0 & Ha & ->).
    apply fmap_Some in Hb as (b0 & Hb & ->). simpl.
    assert (entry_le a0 b0) as Hle.
    { eapply (StronglySorted_lookup entry_le); [|exact Ha|exact Hb|exact Hij].
      apply Sorted_StronglySorted; [apply _|apply sorted_Sorted]. }
    unfold entry_le, key_le, sort_key in Hle. simpl in Hle. lia.
  - rewrite Hun. apply sorted_perm.
  - intros c p. rewrite Hun.
    rewrite !(list_filter_iff (λ e, combined e = c ∧ programming e = p)
                (λ e, sort_key e = (- c, - p))).
    + apply sorted_stable.
    + intros e. unfold sort_key. split; [intros [-> ->]; done|].
      intros [= ? ?]. lia.
    + intros e. unfold sort_key. split; [intros [-> ->]; done|].
      intros [= ? ?]. lia.
  - intros i a Ha. unfold lb, aggregate_skills in Ha.
    rewrite list_lookup_imap in Ha.
    by apply fmap_Some in Ha as (a0 & _ & ->).
Qed.

Lemma scores_of_unrecognized t ev ty runs :
  (∀ r, r ∈ runs → (run_key r).1 = t → unrecognized r) →
  ty = "driver" ∨ ty = "programming" →
  scores_of (t, ev) ty runs = [].
Proof.
  intros Hall Hty. unfold scores_of.
  induction runs as [|r runs IH]; [done|].
  rewrite filter_cons, decide_False.
  - apply IH. intros r' Hr'. apply Hall. by right.
  - intros [Hk Hr]. destruct (Hall r) as [? ?]; [left|by rewrite Hk|].
    destruct Hty; congruence.
Qed.

(** C10. A run of an unrecognized type leaves [team_event] as it is when the
    group of the run is there already and adds the fresh group, with both
    scores zero, when it is not; and a team all of whose runs are of an
    unrecognized type has an entry in the leaderboard with driver,
    programming and combined all zero. *)
Theorem unrecognized_type_listed_with_zero (runs : list run) (r : run) :
  r ∈ runs →
  (∀ r', r' ∈ runs → (run_key r').1 = (run_key r).1 → unrecognized r') →
  (∀ te,
     add_run te r =
     match dict_get (run_key r) te with
     | Some _ => te
     | None => te ++ [(run_key r, new_group r)]
     end) ∧
  g_driver (new_group r) = 0 ∧ g_programming (new_group r) = 0 ∧
  ∃ e, e ∈ aggregate_skills runs ∧ team_id e = (run_key r).1 ∧
       driver e = 0 ∧ programming e = 0 ∧ combined e = 0.
Proof.
  intros Hr Hall. split_and!; [|done|done|].
  - intros te. unfold add_run.
    destruct (Hall r Hr eq_refl) as [Hd Hp].
    by rewrite !decide_False.
  - pose proof (leaderboard_has_team runs r Hr) as Hin.
    apply list_elem_of_fmap in Hin as (e & Ht & He).
    exists e. split; [done|]. split; [done|].
    apply aggregate_entry in He
      as (idx & i & [t ev] & g & -> & Hi & Hbest & Hok).
    destruct Hok as (Hgt & Hev & Hd & Hp). simpl in Hgt, Hev, Hd, Hp |- *.
    assert (∀ ty, ty = "driver" ∨ ty = "programming" →
                  scores_of (t, ev) ty runs = []) as Hnone.
    { intros ty Hty. apply scores_of_unrecognized; [|done].
      intros r' Hr' Hk. apply Hall; [done|]. by rewrite Hk, Ht. }
    rewrite Hd, Hp, !Hnone by auto. done.
Qed.

Lemma unrecognized_type_listed_with_zero_witness :
  let r := mk_run 300 "300C" 1 "E1" "practice" 55 in
  r ∈ scenario_unknown_type ∧
  (∀ r', r' ∈ scenario_unknown_type → (run_key r').1 = (run_key r).1 →
         unrecognized r') ∧
  ((∀ te,
      add_run te r =
      match dict_get (run_key r) te with
      | Some _ => te
      | None => te ++ [(run_key r, new_group r)]
      end) ∧
   g_driver (new_group r) = 0 ∧ g_programming (new_group r) = 0 ∧
   ∃ e, e ∈ aggregate_skills scenario_unknown_type ∧
        team_id e = (run_key r).1 ∧
        driver e = 0 ∧ programming e = 0 ∧ combined e = 0).
Proof.
  intros r.
  assert (r ∈ scenario_unknown_type) as H1 by left.
  assert (∀ r', r' ∈ scenario_unknown_type →
                (run_key r').1 = (run_key r).1 → unrecognized r') as H2.
  { apply (proj1 (Forall_forall
              (λ r', (run_key r').1 = (run_key r).1 → unrecognized r') _)).
    apply (bool_decide_unpack _). vm_compute. exact I. }
  split; [exact H1|]. split; [exact H2|].
  exact (unrecognized_type_listed_with_zero scenario_unknown_type r H1 H2).
Defined.

(** ** One attempt of [_get] *)

Lemma client_eq n1 n2 l1 l2 : n1 = n2 → l1 = l2 → Client n1 l1 = Client n2 l2.
Proof. by intros -> ->. Qed.

(** Two results that differ in the way the client is written only. *)
Ltac same_client :=
  f_equal; apply client_eq;
  [ cbn; lia | cbn; rewrite <- ?app_assoc; reflexivity ].

(** Runs the monad as far as the next case distinction. *)
Ltac run_client :=
  repeat progress
    (cbn -[String.append Z.pow];
     unfold mbind, M_bind, bind, mret, M_ret, session_get, count_request,
       sleep, print, emit, raise, ret).

Lemma n_gets_app e1 e2 : n_gets (e1 ++ e2) = (n_gets e1 + n_gets e2)%nat.
Proof.
  induction e1 as [|[]]; cbn; by rewrite ?IHe1.
Qed.

Lemma logged_nil c : logged c [] = c.
Proof. destruct c. unfold logged. cbn. by rewrite app_nil_r. Qed.

Lemma logged_logged c e1 e2 : logged (logged c e1) e2 = logged c (e1 ++ e2).
Proof.
  unfold logged. cbn. apply client_eq; [|by rewrite app_assoc].
  rewrite n_gets_app. lia.
Qed.

Lemma failure_trace_S url ps a k :
  failure_trace url ps a (S k)
  = failure_trace url ps a 1 ++ failure_trace url ps (S a) k.
Proof. unfold failure_trace. cbn [seq flat_map]. by rewrite app_nil_r. Qed.



Lemma n_gets_failure_trace url ps a k : n_gets (failure_trace url ps a k) = k.
Proof.
  revert a. induction k as [|k IH]; intros a; [done|].
  rewrite failure_trace_S, n_gets_app, IH. done.
Qed.

Section ClientFacts.
Context {A : Type}.
Variable srv : nat → string → gmap string pval → net_result A.
Implicit Types (c : client) (ps : gmap string pval).

(** One iteration of the loop of [_get], with the monad unfolded. *)
Lemma get_loop_unfold a rest ep ps c :
  _get_loop srv (a :: rest) ep ps c =
  let url := BASE_URL +:+ ep in
  let c1 := requested c url ps in
  let on_exception :=
    if bool_decide (a < MAX_RETRIES - 1)%nat then
      _get_loop srv rest ep ps (logged c (failure_trace url ps a 1))
    else (Raise RequestException, c1) in
  match srv (request_count c) url ps with
  | Net_exception => on_exception
  | Net_response status h body =>
      if bool_decide (status = 429) then
        match wait_of h with
        | None => (Raise ValueError, c1)
        | Some w =>
            if bool_decide (w < 0) then
              (Raise ValueError, logged c1 [Print (Msg_rate_limited w)])
            else if bool_decide (MAX_SLEEP < w) then
              (Raise OverflowError, logged c1 [Print (Msg_rate_limited w)])
            else
              _get_loop srv rest ep ps
                (logged c1 [Print (Msg_rate_limited w); Sleep (Seconds w)])
        end
      else if is_error_status status then on_exception
      else (Ret body, c1)
  end.
Proof.
  assert (0 ≤ 2 ^ Z.of_nat a) by (apply Z.pow_nonneg; lia).
  assert ((a < MAX_RETRIES - 1)%nat → ¬ MAX_SLEEP < 2 ^ Z.of_nat a) as Hsmall.
  { unfold MAX_RETRIES, MAX_SLEEP. intros Ha.
    destruct a as [|[|a]]; [cbn; lia|cbn; lia|lia]. }
  run_client.
  destruct (srv (request_count c) (BASE_URL +:+ ep) ps) as [|status h body];
    run_client.
  - case_bool_decide as Ha; run_client; [|same_client].
    rewrite bool_decide_false by lia.
    rewrite bool_decide_false by (by apply Hsmall). same_client.
  - case_bool_decide; run_client.
    + destruct (wait_of h) as [w|]; run_client; [|same_client].
      case_bool_decide; run_client; [same_client|].
      case_bool_decide; run_client; same_client.
    + destruct (is_error_status status); run_client; [|same_client].
      case_bool_decide as Ha; run_client; [|same_client].
      rewrite bool_decide_false by lia.
      rewrite bool_decide_false by (by apply Hsmall). same_client.
Qed.

Lemma get_loop_success a rest ep ps c body :
  success (srv (request_count c) (BASE_URL +:+ ep) ps) body →
  _get_loop srv (a :: rest) ep ps c
  = (Ret body, requested c (BASE_URL +:+ ep) ps).
Proof.
  intros (status & h & Hr & Hs & He).
  rewrite get_loop_unfold. cbv zeta. rewrite Hr.
  by rewrite bool_decide_false, He.
Qed.


Lemma get_loop_failure a rest ep ps c :
  transient_failure (srv (request_count c) (BASE_URL +:+ ep) ps) = true →
  _get_loop srv (a :: rest) ep ps c
  = if bool_decide (a < MAX_RETRIES - 1)%nat then
      _get_loop srv rest ep ps
        (logged c (failure_trace (BASE_URL +:+ ep) ps a 1))
    else (Raise RequestException, requested c (BASE_URL +:+ ep) ps).
Proof.
  intros Hf. rewrite get_loop_unfold. cbv zeta.
  destruct (srv (request_count c) (BASE_URL +:+ ep) ps)
    as [|status h body]; [done|]. simpl in Hf.
  apply andb_prop in Hf as [Hs%bool_decide_eq_true He].
  by rewrite bool_decide_false, He.
Qed.


Lemma get_loop_failures k a n ep ps c :
  (∀ i, (i < k)%nat →
     transient_failure (srv (request_count c + i) (BASE_URL +:+ ep) ps) = true) →
  (a + k ≤ MAX_RETRIES - 1)%nat →
  _get_loop srv (seq a (k + n)) ep ps c
  = _get_loop srv (seq (a + k) n) ep ps
      (logged c (failure_trace (BASE_URL +:+ ep) ps a k)).
Proof.
  revert a c. induction k as [|k IH]; intros a c Hf Hk.
  - rewrite Nat.add_0_r. cbn [Nat.add]. unfold failure_trace. cbn [seq flat_map].
    by rewrite logged_nil.
  - cbn [Nat.add seq]. rewrite get_loop_failure.
    2:{ specialize (Hf 0%nat). rewrite Nat.add_0_r in Hf. apply Hf. lia. }
    rewrite bool_decide_true by lia.
    rewrite (IH (S a)).
    + by rewrite logged_logged, Nat.add_succ_r, <- failure_trace_S.
    + intros i Hi. cbn [logged request_count n_gets failure_trace seq flat_map app].
      cbn [Nat.add]. rewrite <- Nat.add_succ_r. apply Hf. lia.
    + lia.
Qed.


End ClientFacts.

(** ** Claims on [_get] *)




(** C5. A transient failure (an exception of [session.get], or a status
    from 400 to 599 other than 429) makes [_get] try again, each failed
    attempt [i] (from zero) being followed by a sleep of [2 ^ i] seconds:
    after [k] failures, [k] below [MAX_RETRIES], an answer is returned; and
    when the attempt number [MAX_RETRIES - 1], the third, fails as well, the
    exception reaches the caller. Whatever came before, a failed attempt
    [a] below [MAX_RETRIES - 1] is followed by the sleep of [2 ^ a] seconds
    and the next attempt, and a failed last attempt raises. *)
Theorem get_retries_transient_failures {A}
    (srv : nat → string → gmap string pval → net_result A)
    (ep : string) (ps : gmap string pval) (c : client) (k : nat) :
  (k < MAX_RETRIES)%nat →
  (∀ i, (i < k)%nat →
     transient_failure (srv (request_count c + i)%nat (BASE_URL +:+ ep) ps)
     = true) →
  let c' := logged c (failure_trace (BASE_URL +:+ ep) ps 0 k ++
                      [Sleep RATE_LIMIT_DELAY; Get (BASE_URL +:+ ep) ps]) in
  (∀ body,
     success (srv (request_count c + k)%nat (BASE_URL +:+ ep) ps) body →
     _get srv ep ps c = (Ret body, c')) ∧
  (transient_failure (srv (request_count c + k)%nat (BASE_URL +:+ ep) ps)
   = true →
   k = (MAX_RETRIES - 1)%nat →
   _get srv ep ps c = (Raise RequestException, c')) ∧
  (∀ a rest c1,
     transient_failure (srv (request_count c1) (BASE_URL +:+ ep) ps) = true →
     _get_loop srv (a :: rest) ep ps c1
     = if bool_decide (a < MAX_RETRIES - 1)%nat then
         _get_loop srv rest ep ps
           (logged c1 [Sleep RATE_LIMIT_DELAY; Get (BASE_URL +:+ ep) ps;
                       Print (Msg_request_failed (Z.of_nat a + 1));
                       Sleep (Seconds (2 ^ Z.of_nat a))])
       else (Raise RequestException,
             logged c1 [Sleep RATE_LIMIT_DELAY; Get (BASE_URL +:+ ep) ps])).
Proof.
  intros Hk Hfail c'.
  assert (_get srv ep ps c
          = _get_loop srv (k :: seq (S k) (MAX_RETRIES - 1 - k)) ep ps
              (logged c (failure_trace (BASE_URL +:+ ep) ps 0 k))) as Hget.
  { unfold _get.
    replace MAX_RETRIES with (k + S (MAX_RETRIES - 1 - k))%nat at 1 by lia.
    rewrite (get_loop_failures srv k 0) by (done || lia). done. }
  assert (request_count (logged c (failure_trace (BASE_URL +:+ ep) ps 0 k))
          = (request_count c + k)%nat) as Hcount.
  { cbn [logged request_count]. by rewrite n_gets_failure_trace, Nat.add_comm. }
  split_and!.
  - intros body Hok. rewrite Hget.
    rewrite (get_loop_success srv _ _ _ _ _ body) by (by rewrite Hcount).
    unfold requested. by rewrite logged_logged.
  - intros Hlast ->. rewrite Hget.
    rewrite get_loop_failure by (by rewrite Hcount).
    rewrite bool_decide_false by lia.
    unfold requested. by rewrite logged_logged.
  - intros a rest c1 Hf. by rewrite get_loop_failure.
Qed.

Lemma get_retries_transient_failures_witness :
  (2 < MAX_RETRIES)%nat ∧
  (∀ i, (i < 2)%nat →
     transient_failure
       (srv_down (request_count client0 + i)%nat (BASE_URL +:+ "/events") ∅)
     = true) ∧
  (let c' := logged client0
               (failure_trace (BASE_URL +:+ "/events") ∅ 0 2 ++
                [Sleep RATE_LIMIT_DELAY; Get (BASE_URL +:+ "/events") ∅]) in
   (∀ body,
      success
        (srv_down (request_count client0 + 2)%nat (BASE_URL +:+ "/events") ∅)
        body →
      _get srv_down "/events" ∅ client0 = (Ret body, c')) ∧
   (transient_failure
      (srv_down (request_count client0 + 2)%nat (BASE_URL +:+ "/events") ∅)
    = true →
    2%nat = (MAX_RETRIES - 1)%nat →
    _get srv_down "/events" ∅ client0 = (Raise RequestException, c')) ∧
   (∀ a rest c1,
      transient_failure
        (srv_down (request_count c1) (BASE_URL +:+ "/events") ∅) = true →
      _get_loop srv_down (a :: rest) "/events" ∅ c1
      = if bool_decide (a < MAX_RETRIES - 1)%nat then
          _get_loop srv_down rest "/events" ∅
            (logged c1 [Sleep RATE_LIMIT_DELAY; Get (BASE_URL +:+ "/events") ∅;
                        Print (Msg_request_failed (Z.of_nat a + 1));
                        Sleep (Seconds (2 ^ Z.of_nat a))])
        else (Raise RequestException,
              logged c1 [Sleep RATE_LIMIT_DELAY;
                         Get (BASE_URL +:+ "/events") ∅]))).
Proof.
  assert (2 < MAX_RETRIES)%nat as H1 by (unfold MAX_RETRIES; lia).
  assert (∀ i, (i < 2)%nat →
     transient_failure
       (srv_down (request_count client0 + i)%nat (BASE_URL +:+ "/events") ∅)
     = true) as H2 by (intros; reflexivity).
  split; [exact H1|]. split; [exact H2|].
  exact (get_retries_transient_failures srv_down "/events" ∅ client0 2 H1 H2).
Defined.

(** The run of [_get] against a server that is down: three requests, sleeps
    of one and of two seconds between them, and the exception. *)
Example get_server_down :
  _get srv_down "/events" ∅ client0
  = (Raise RequestException,
     Client 3
       [ Sleep RATE_LIMIT_DELAY; Get (BASE_URL +:+ "/events") ∅;
         Print (Msg_request_failed 1); Sleep (Seconds 1);
         Sleep RATE_LIMIT_DELAY; Get (BASE_URL +:+ "/events") ∅;
         Print (Msg_request_failed 2); Sleep (Seconds 2);
         Sleep RATE_LIMIT_DELAY; Get (BASE_URL +:+ "/events") ∅ ]).
Proof. by vm_compute. Qed.

(** ** Pagination *)

Lemma requested_pages_app l1 l2 :
  requested_pages (l1 ++ l2) = requested_pages l1 ++ requested_pages l2.
Proof. unfold requested_pages. apply omap_app. Qed.

Lemma payloads_S {A} (pages : nat → option (list A)) i k :
  payloads pages i (S k) = default [] (pages i) ++ payloads pages (S i) k.
Proof. done. Qed.

Section Pagination.
Context {A : Type}.
Variable srv : nat → string → gmap string pval → net_result A.
Implicit Types (c : client) (ps : gmap string pval).

Lemma get_success ep ps c body :
  success (srv (request_count c) (BASE_URL +:+ ep) ps) body →
  _get srv ep ps c = (Ret body, requested c (BASE_URL +:+ ep) ps).
Proof. intros Hok. unfold _get. cbn [seq MAX_RETRIES]. by apply get_loop_success. Qed.

(** One turn of the loop of [_get_all_pages] on an answer. *)
Lemma pages_loop_step fuel ep ps label all_data c body :
  success (srv (request_count c) (BASE_URL +:+ ep) ps) body →
  pages_loop srv (S fuel) ep ps label all_data c =
  let all_data' := all_data ++ default [] (data body) in
  let m := default empty_meta (meta body) in
  let current := default 1 (current_page m) in
  let last := default 1 (last_page m) in
  let tot := default (Z.of_nat (length all_data')) (total m) in
  let c1 := progress_printed label
              (Msg_progress label current last (length all_data') tot)
              (requested c (BASE_URL +:+ ep) ps) in
  if bool_decide (last ≤ current) then
    Some (Ret all_data', progress_printed label Msg_newline c1)
  else
    pages_loop srv fuel ep (<["page" := PInt (current + 1)]> ps) label
      all_data' c1.
Proof.
  intros Hok. cbn [pages_loop]. rewrite (get_success _ _ _ _ Hok).
  cbv zeta. unfold progress_printed.
  destruct (decide (label = "")); [done|].
  by case_bool_decide.
Qed.

End Pagination.

Lemma progress_printed_count label m c :
  request_count (progress_printed label m c) = request_count c.
Proof. unfold progress_printed. by case_decide. Qed.

Lemma progress_printed_pages label m c :
  requested_pages (log (progress_printed label m c)) = requested_pages (log c).
Proof.
  unfold progress_printed. case_decide; [done|].
  cbn [logged log]. rewrite requested_pages_app. cbn. by rewrite app_nil_r.
Qed.

Lemma requested_pages_requested c url ps p :
  ps !! "page" = Some (PInt p) →
  requested_pages (log (requested c url ps)) = requested_pages (log c) ++ [p].
Proof.
  intros Hp. unfold requested. cbn [logged log].
  rewrite requested_pages_app. f_equal.
  unfold requested_pages. cbn [omap list_omap]. by rewrite Hp.
Qed.

Section PaginationPages.
Context {A : Type}.
Variable srv : nat → string → gmap string pval → net_result A.
Variables (pages : nat → option (list A)) (tot : nat → option Z).
Variables (n : nat) (ep label : string).

(** The server answers the request of page [i], from 1 to [n], with page [i]
    of [n], whenever it is asked. *)
Hypothesis srv_pages :
  ∀ k ps (i : nat), (1 ≤ i ≤ n)%nat →
    ps !! "page" = Some (PInt (Z.of_nat i)) →
    srv k (BASE_URL +:+ ep) ps = page_answer pages tot n i.

Lemma pages_loop_pages m :
  ∀ (i fuel : nat) ps all_data c,
    (1 ≤ i)%nat → (i + m = n)%nat → (m < fuel)%nat →
    ps !! "page" = Some (PInt (Z.of_nat i)) →
    ∃ c',
      pages_loop srv fuel ep ps label all_data c
      = Some (Ret (all_data ++ payloads pages i (S m)), c') ∧
      requested_pages (log c')
      = requested_pages (log c) ++ (Z.of_nat <$> seq i (S m)) ∧
      request_count c' = (S m + request_count c)%nat.
Proof.
  induction m as [|m IH]; intros i fuel ps all_data c Hi Hn Hfuel Hp.
  all: destruct fuel as [|fuel]; [lia|].
  all: assert (success (srv (request_count c) (BASE_URL +:+ ep) ps)
                 (Json (pages i)
                    (Some (Meta (Some (Z.of_nat i)) (Some (Z.of_nat n))
                             (tot i))))) as Hok
         by (rewrite (srv_pages _ _ i) by (done || lia);
             exists 200, RA_absent; split_and!; [reflexivity|lia|reflexivity]).
  all: rewrite (pages_loop_step srv _ _ _ _ _ _ _ Hok);
       cbn -[String.append requested progress_printed].
  - rewrite bool_decide_true by lia. eexists. split; [|split].
    + by rewrite app_nil_r.
    + rewrite !progress_printed_pages.
      by rewrite (requested_pages_requested _ _ _ _ Hp).
    + by rewrite !progress_printed_count.
  - rewrite bool_decide_false by lia.
    edestruct (IH (S i) fuel
                 (<["page" := PInt (Z.of_nat i + 1)]> ps)) as (c' & Hrun & Hlog & Hcnt);
      [lia|lia|lia| |].
    { rewrite lookup_insert_eq. do 2 f_equal. lia. }
    exists c'. split; [|split].
    + rewrite Hrun, <- app_assoc. done.
    + rewrite Hlog, progress_printed_pages.
      rewrite (requested_pages_requested _ _ _ _ Hp).
      by rewrite <- app_assoc.
    + rewrite Hcnt, progress_printed_count. cbn. lia.
Qed.

End PaginationPages.

(** ** Claims on [_get_all_pages] and [get_active_season] *)

(** C6. Against a server that answers the request of page [i] with page [i]
    of [n] ([current_page = i], [last_page = n], any [total], [data] possibly
    missing), [_get_all_pages] with enough fuel asks for the pages 1 to [n]
    in order, one request each, and returns the payloads of these [n] pages
    one after the other, a page without [data] counting as empty. In
    general one turn of the loop on an answer stops when [last_page] is at
    most [current_page] and otherwise asks for page [current_page + 1]. *)
Theorem get_all_pages_concatenates {A}
    (srv : nat → string → gmap string pval → net_result A)
    (pages : nat → option (list A)) (tot : nat → option Z) (n fuel : nat)
    (ep : string) (ps0 : option (gmap string pval)) (label : string)
    (c : client) :
  (1 ≤ n)%nat → (n ≤ fuel)%nat →
  (∀ k ps (i : nat), (1 ≤ i ≤ n)%nat →
     ps !! "page" = Some (PInt (Z.of_nat i)) →
     srv k (BASE_URL +:+ ep) ps = page_answer pages tot n i) →
  (∃ c',
     _get_all_pages srv fuel ep ps0 label c
     = Some (Ret (payloads pages 1 n), c') ∧
     requested_pages (log c')
     = requested_pages (log c) ++ (Z.of_nat <$> seq 1 n) ∧
     request_count c' = (n + request_count c)%nat) ∧
  (∀ (srv' : nat → string → gmap string pval → net_result A)
     fuel' ps all_data c1 body,
     success (srv' (request_count c1) (BASE_URL +:+ ep) ps) body →
     let all_data' := all_data ++ default [] (data body) in
     let m := default empty_meta (meta body) in
     let current := default 1 (current_page m) in
     let last := default 1 (last_page m) in
     let tot' := default (Z.of_nat (length all_data')) (total m) in
     let c2 := progress_printed label
                 (Msg_progress label current last (length all_data') tot')
                 (requested c1 (BASE_URL +:+ ep) ps) in
     pages_loop srv' (S fuel') ep ps label all_data c1 =
     if bool_decide (last ≤ current) then
       Some (Ret all_data', progress_printed label Msg_newline c2)
     else
       pages_loop srv' fuel' ep (<["page" := PInt (current + 1)]> ps) label
         all_data' c2).
Proof.
  intros Hn Hfuel Hsrv. split.
  - unfold _get_all_pages.
    destruct n as [|m]; [lia|].
    destruct (pages_loop_pages srv pages tot (S m) ep label Hsrv m 1 fuel
                (<["page" := PInt 1]>
                   (<["per_page" := PInt PER_PAGE]> (default ∅ ps0))) [] c)
      as (c' & Hrun & Hlog & Hcnt); [lia|lia|lia|by rewrite lookup_insert_eq|].
    exists c'. by rewrite Hrun, Hlog, Hcnt.
  - intros srv' fuel' ps all_data c1 body Hok.
    by rewrite (pages_loop_step srv' _ _ _ _ _ _ _ Hok).
Qed.

Lemma get_all_pages_concatenates_witness :
  (1 ≤ 3)%nat ∧ (3 ≤ 5)%nat ∧
  (∀ k ps (i : nat), (1 ≤ i ≤ 3)%nat →
     ps !! "page" = Some (PInt (Z.of_nat i)) →
     srv_three_pages k (BASE_URL +:+ "/events") ps
     = page_answer pages3 (λ _, Some 77) 3 i) ∧
  ((∃ c',
      _get_all_pages srv_three_pages 5 "/events" None "" client0
      = Some (Ret (payloads pages3 1 3), c') ∧
      requested_pages (log c')
      = requested_pages (log client0) ++ (Z.of_nat <$> seq 1 3) ∧
      request_count c' = (3 + request_count client0)%nat) ∧
   (∀ (srv' : nat → string → gmap string pval → net_result Z)
      fuel' ps all_data c1 body,
      success (srv' (request_count c1) (BASE_URL +:+ "/events") ps) body →
      let all_data' := all_data ++ default [] (data body) in
      let m := default empty_meta (meta body) in
      let current := default 1 (current_page m) in
      let last := default 1 (last_page m) in
      let tot' := default (Z.of_nat (length all_data')) (total m) in
      let c2 := progress_printed ""
                  (Msg_progress "" current last (length all_data') tot')
                  (requested c1 (BASE_URL +:+ "/events") ps) in
      pages_loop srv' (S fuel') "/events" ps "" all_data c1 =
      if bool_decide (last ≤ current) then
        Some (Ret all_data', progress_printed "" Msg_newline c2)
      else
        pages_loop srv' fuel' "/events" (<["page" := PInt (current + 1)]> ps) ""
          all_data' c2)).
Proof.
  assert (1 ≤ 3)%nat as H1 by lia.
  assert (3 ≤ 5)%nat as H2 by lia.
  assert (∀ k ps (i : nat), (1 ≤ i ≤ 3)%nat →
     ps !! "page" = Some (PInt (Z.of_nat i)) →
     srv_three_pages k (BASE_URL +:+ "/events") ps
     = page_answer pages3 (λ _, Some 77) 3 i) as H3.
  { intros k ps i _ Hp. unfold srv_three_pages. rewrite Hp.
    by rewrite Nat2Z.id. }
  split; [exact H1|]. split; [exact H2|]. split; [exact H3|].
  exact (get_all_pages_concatenates srv_three_pages pages3 (λ _, Some 77) 3 5
           "/events" None "" client0 H1 H2 H3).
Defined.

(** The three pages, with a label: three items although [total] says 77. *)
Example get_all_pages_three_pages :
  fst <$> _get_all_pages srv_three_pages 5 "/events" None "Fetching events"
            client0
  = Some (Ret [10; 11; 30]).
Proof. by vm_compute. Qed.

(** C8. When the seasons query is answered, [get_active_season] raises
    [RuntimeError] if the answer holds no season ([data] empty or missing)
    and returns the last season of the answer otherwise. *)
Theorem get_active_season_last {A}
    (srv : nat → string → gmap string pval → net_result A) (c : client)
    (body : json A) :
  success (srv (request_count c) (BASE_URL +:+ "/seasons") season_params) body →
  let c' := requested c (BASE_URL +:+ "/seasons") season_params in
  (default [] (data body) = [] →
   get_active_season srv c
   = (Raise (RuntimeError "No active V5RC season found!"), c')) ∧
  (∀ l s, data body = Some (l ++ [s]) →
          get_active_season srv c = (Ret s, c')).
Proof.
  intros Hok c'. unfold get_active_season.
  unfold mbind, M_bind, bind. rewrite (get_success srv _ _ _ _ Hok).
  split.
  - intros ->. done.
  - intros l s ->. cbn [default from_option id]. by rewrite last_snoc.
Qed.

Lemma get_active_season_last_witness :
  success
    (srv_two_seasons (request_count client0) (BASE_URL +:+ "/seasons")
       season_params)
    (Json (Some [190; 197]) None) ∧
  (let c' := requested client0 (BASE_URL +:+ "/seasons") season_params in
   (default [] (data (Json (Some [190; 197]) None)) = [] →
    get_active_season srv_two_seasons client0
    = (Raise (RuntimeError "No active V5RC season found!"), c')) ∧
   (∀ l s, data (Json (Some [190; 197]) None) = Some (l ++ [s]) →
           get_active_season srv_two_seasons client0 = (Ret s, c'))).
Proof.
  assert (success
    (srv_two_seasons (request_count client0) (BASE_URL +:+ "/seasons")
       season_params)
    (Json (Some [190; 197]) None)) as H1.
  { exists 200, RA_absent. split_and!; [reflexivity|lia|reflexivity]. }
  split; [exact H1|].
  exact (get_active_season_last srv_two_seasons client0 _ H1).
Defined.

Example get_active_season_two :
  (get_active_season srv_two_seasons client0).1 = Ret 197.
Proof. by vm_compute. Qed.

Example get_active_season_none :
  (get_active_season srv_no_season client0).1
  = Raise (RuntimeError "No active V5RC season found!").
Proof. by vm_compute. Qed.

(** ** The qualification filter *)

Lemma forget_set_bubble_rank i e :
  forget_bubble (set_bubble_rank i e) = forget_bubble e.
Proof. done. Qed.

Lemma rerank_length i addrs h : length (rerank i addrs h) = length h.
Proof.
  revert i h. induction addrs as [|a addrs IH]; intros i h; [done|].
  cbn [rerank]. rewrite IH. apply length_alter.
Qed.

Lemma rerank_lookup_notin i addrs h a :
  a ∉ addrs → rerank i addrs h !! a = h !! a.
Proof.
  revert i h. induction addrs as [|a' addrs IH]; intros i h; [done|].
  intros [Hne Hnotin]%not_elem_of_cons. cbn [rerank].
  rewrite IH by done. by apply list_lookup_alter_ne.
Qed.

Lemma rerank_lookup_in i addrs h j a :
  NoDup addrs → addrs !! j = Some a →
  rerank i addrs h !! a = set_bubble_rank (i + j) <$> h !! a.
Proof.
  revert i h j. induction addrs as [|a' addrs IH]; intros i h j; [done|].
  intros [Hnotin Hnd]%NoDup_cons Hj. cbn [rerank].
  destruct j as [|j]; cbn in Hj.
  - injection Hj as ->. rewrite rerank_lookup_notin by done.
    by rewrite list_lookup_alter_eq, Nat.add_0_r.
  - rewrite (IH _ _ j) by done.
    rewrite list_lookup_alter_ne.
    + by rewrite Nat.add_succ_r.
    + intros ->. apply Hnotin. by eapply list_elem_of_lookup_2.
Qed.

Lemma rerank_forget i addrs h :
  forget_bubble <$> rerank i addrs h = forget_bubble <$> h.
Proof.
  revert i h. induction addrs as [|a addrs IH]; intros i h; [done|].
  cbn [rerank]. rewrite IH. apply list_eq. intros k.
  rewrite !list_lookup_fmap.
  destruct (decide (a = k)) as [->|Hne].
  - rewrite list_lookup_alter_eq. by destruct (h !! k).
  - by rewrite list_lookup_alter_ne.
Qed.

Lemma deref_seq_app pre h :
  deref (pre ++ h) (seq (length pre) (length h)) = h.
Proof.
  revert pre. induction h as [|x h IH]; intros pre; [done|].
  cbn [length seq]. unfold deref. cbn [omap list_omap].
  rewrite list_lookup_middle by done. f_equal.
  specialize (IH (pre ++ [x])). rewrite length_app, Nat.add_1_r in IH.
  by rewrite <- app_assoc in IH.
Qed.

Lemma deref_seq h : deref h (seq 0 (length h)) = h.
Proof. apply (deref_seq_app [] h). Qed.

Lemma rerank_all h :
  rerank 0 (seq 0 (length h)) h = imap set_bubble_rank h.
Proof.
  apply list_eq. intros a. rewrite list_lookup_imap.
  destruct (decide (a < length h)%nat) as [Hlt|Hge].
  - by rewrite (rerank_lookup_in 0 _ h a a (NoDup_seq _ _)
                  (lookup_seq_lt 0 _ _ Hlt)).
  - rewrite rerank_lookup_notin.
    + by rewrite lookup_ge_None_2 by lia.
    + rewrite elem_of_seq. lia.
Qed.

Lemma filter_all {B} (P : B → Prop) `{∀ x, Decision (P x)} (l : list B) :
  Forall P l → filter P l = l.
Proof.
  induction 1 as [|x l Hx Hl IH]; [done|].
  by rewrite filter_cons_True, IH.
Qed.

Lemma filter_none {B} (P : B → Prop) `{∀ x, Decision (P x)} (l : list B) :
  Forall (λ x, ¬ P x) l → filter P l = [].
Proof.
  induction 1 as [|x l Hx Hl IH]; [done|].
  by rewrite filter_cons_False.
Qed.

Lemma non_qualified_none (h : list entry) (addrs : list nat) :
  Forall (λ a, is_Some (h !! a)) addrs → non_qualified h addrs ∅ = addrs.
Proof.
  intros Hall. unfold non_qualified. apply filter_all.
  eapply Forall_impl; [exact Hall|]. intros a [e He].
  unfold not_in. rewrite He. by rewrite bool_decide_true.
Qed.

Lemma non_qualified_all (h : list entry) (addrs : list nat) (q : gset ident) :
  (∀ a e, a ∈ addrs → h !! a = Some e → team_id e ∈ q) →
  non_qualified h addrs q = [].
Proof.
  intros Hall. unfold non_qualified. apply filter_none, Forall_forall.
  intros a Ha. unfold not_in. destruct (h !! a) as [e|] eqn:He; [|by intros []].
  intros Hnot%bool_decide_unpack. apply Hnot. by eapply Hall.
Qed.

Lemma seq_valid {B} (h : list B) : Forall (λ a, is_Some (h !! a)) (seq 0 (length h)).
Proof.
  apply Forall_forall. intros a Ha%elem_of_seq. apply lookup_lt_is_Some. lia.
Qed.

Lemma aggregate_skills_rank runs i e :
  aggregate_skills runs !! i = Some e → rank e = Some (Z.of_nat i + 1).
Proof.
  unfold aggregate_skills. rewrite list_lookup_imap.
  by intros (e0 & _ & ->)%fmap_Some.
Qed.

(** ** Claims on the qualification filter *)

(** C7. With an empty qualified set the bubble list holds the objects of the
    leaderboard returned by [aggregate_skills], all of them and in the same
    order, and each carries a bubble rank equal to its rank; with a
    qualified set that has the identifier of every team of the leaderboard
    the bubble list is empty. *)
Theorem filter_qualified_empty_and_full (runs : list run) (q : gset ident) :
  (∀ e, e ∈ aggregate_skills runs → team_id e ∈ q) →
  let lb := aggregate_skills runs in
  let out := filter_qualified (alloc lb).1 (alloc lb).2 ∅ in
  out.2 = (alloc lb).2 ∧
  deref out.1 out.2 = imap set_bubble_rank lb ∧
  Forall (λ e, is_Some (rank e) ∧ bubble_rank e = rank e) (deref out.1 out.2) ∧
  (filter_qualified (alloc lb).1 (alloc lb).2 q).2 = [].
Proof.
  intros Hq lb out.
  assert (out.2 = seq 0 (length lb)) as Hnq.
  { unfold out, filter_qualified, alloc. cbn [fst snd].
    apply non_qualified_none, seq_valid. }
  assert (out.1 = imap set_bubble_rank lb) as Hh.
  { unfold out, filter_qualified, alloc. cbn [fst snd].
    rewrite non_qualified_none by apply seq_valid. apply rerank_all. }
  assert (deref out.1 out.2 = imap set_bubble_rank lb) as Hd.
  { rewrite Hnq, Hh. rewrite <- (length_imap set_bubble_rank lb).
    apply deref_seq. }
  split_and!; [done|done| |].
  - rewrite Hd. apply Forall_forall.
    intros e (i & e0 & -> & He0)%elem_of_lookup_imap.
    apply aggregate_skills_rank in He0. cbn. by rewrite He0.
  - unfold filter_qualified, alloc. cbn [fst snd].
    apply non_qualified_all. intros a e _ He. apply Hq.
    by eapply list_elem_of_lookup_2.
Qed.

Lemma filter_qualified_empty_and_full_witness :
  (∀ e, e ∈ aggregate_skills scenario_two_teams →
        team_id e ∈ ({[Some 100; Some 200]} : gset ident)) ∧
  (let lb := aggregate_skills scenario_two_teams in
   let out := filter_qualified (alloc lb).1 (alloc lb).2 ∅ in
   out.2 = (alloc lb).2 ∧
   deref out.1 out.2 = imap set_bubble_rank lb ∧
   Forall (λ e, is_Some (rank e) ∧ bubble_rank e = rank e)
     (deref out.1 out.2) ∧
   (filter_qualified (alloc lb).1 (alloc lb).2
      ({[Some 100; Some 200]} : gset ident)).2 = []).
Proof.
  assert (∀ e, e ∈ aggregate_skills scenario_two_teams →
               team_id e ∈ ({[Some 100; Some 200]} : gset ident)) as H1.
  { apply (proj1 (Forall_forall
              (λ e, team_id e ∈ ({[Some 100; Some 200]} : gset ident)) _)).
    apply (bool_decide_unpack _). vm_compute. exact I. }
  split; [exact H1|].
  exact (filter_qualified_empty_and_full scenario_two_teams
           {[Some 100; Some 200]} H1).
Defined.

(** C9, as the code has it. The bubble list is made of objects of the
    leaderboard, and step 6 writes the bubble rank into these objects: the
    object at position [i] of the bubble list gets [bubble_rank = i + 1].
    Nothing else changes: every object keeps all its other fields, its rank
    among them, and an object that is not in the bubble list is left as it
    is. *)
Theorem filter_qualified_writes_bubble_rank_only (h : list entry)
    (leaderboard : list nat) (q : gset ident) :
  NoDup leaderboard →
  let out := filter_qualified h leaderboard q in
  forget_bubble <$> out.1 = forget_bubble <$> h ∧
  (∀ a, a ∉ out.2 → out.1 !! a = h !! a) ∧
  (∀ i a, out.2 !! i = Some a → out.1 !! a = set_bubble_rank i <$> h !! a) ∧
  (∀ a, a ∈ out.2 ↔
        a ∈ leaderboard ∧ ∃ e, h !! a = Some e ∧ team_id e ∉ q).
Proof.
  intros Hnd out. unfold out, filter_qualified. cbn [fst snd].
  split_and!.
  - apply rerank_forget.
  - intros a Ha. by apply rerank_lookup_notin.
  - intros i a Hi. apply (rerank_lookup_in 0); [|done].
    unfold non_qualified. by apply NoDup_filter.
  - intros a. unfold non_qualified. rewrite list_elem_of_filter.
    unfold not_in. split.
    + intros [Hp Ha]. split; [done|].
      destruct (h !! a) as [e|]; [|done].
      exists e. split; [done|]. by apply bool_decide_unpack in Hp.
    + intros [Ha (e & -> & He)]. split; [|done]. by apply bool_decide_pack.
Qed.

Lemma filter_qualified_writes_bubble_rank_only_witness :
  let lb := aggregate_skills scenario_two_teams in
  NoDup (alloc lb).2 ∧
  (let out := filter_qualified (alloc lb).1 (alloc lb).2 {[Some 100]} in
   forget_bubble <$> out.1 = forget_bubble <$> (alloc lb).1 ∧
   (∀ a, a ∉ out.2 → out.1 !! a = (alloc lb).1 !! a) ∧
   (∀ i a, out.2 !! i = Some a →
           out.1 !! a = set_bubble_rank i <$> (alloc lb).1 !! a) ∧
   (∀ a, a ∈ out.2 ↔
         a ∈ (alloc lb).2 ∧
         ∃ e, (alloc lb).1 !! a = Some e ∧
              team_id e ∉ ({[Some 100]} : gset ident))).
Proof.
  intros lb.
  assert (NoDup (alloc lb).2) as H1 by apply NoDup_seq.
  split; [exact H1|].
  exact (filter_qualified_writes_bubble_rank_only (alloc lb).1 (alloc lb).2
           {[Some 100]} H1).
Defined.

(** C9 as the specification states it fails: the object of team 200B in the
    leaderboard has no bubble rank before step 6 and bubble rank 1 after
    it. *)
Lemma filter_modifies_leaderboard_entries :
  let lb := aggregate_skills scenario_200B in
  (alloc lb).1 !! 0%nat = Some entry_200B ∧
  (filter_qualified (alloc lb).1 (alloc lb).2 ∅).1 !! 0%nat
  = Some (Entry (Some 200) "200B" "E1" 0 70 70 (Some 1) (Some 1)) ∧
  ¬ filter_leaves_entries_unmodified.
Proof.
  split; [by vm_compute|]. split; [by vm_compute|].
  intros Hclaim. specialize (Hclaim scenario_200B ∅).
  vm_compute in Hclaim. discriminate Hclaim.
Qed.

(** ** Further properties of [aggregate_skills] *)

Lemma max0_app l1 l2 : max0 (l1 ++ l2) = foldl Z.max (max0 l1) l2.
Proof. unfold max0. by rewrite foldl_app. Qed.

Lemma foldl_max_le a l : a ≤ foldl Z.max a l.
Proof.
  revert a. induction l as [|x l IH]; intros a; [done|].
  cbn [foldl]. etrans; [|apply IH]. lia.
Qed.

Lemma foldl_max_elem a l x : x ∈ l → x ≤ foldl Z.max a l.
Proof.
  revert a. induction l as [|y l IH]; intros a Hx; [by apply elem_of_nil in Hx|].
  cbn [foldl]. apply elem_of_cons in Hx as [->|Hx]; [|by apply IH].
  etrans; [|apply foldl_max_le]. lia.
Qed.

Lemma max0_nonneg l : 0 ≤ max0 l.
Proof. apply foldl_max_le. Qed.

Lemma max0_elem l x : x ∈ l → x ≤ max0 l.
Proof. apply foldl_max_elem. Qed.

Lemma max0_cases l : max0 l = 0 ∨ max0 l ∈ l.
Proof.
  induction l as [|x l IH] using rev_ind; [by left|].
  rewrite max0_snoc, elem_of_app, list_elem_of_singleton.
  destruct (Z.max_spec (max0 l) x) as [[_ ->]|[_ ->]]; [by right; right|].
  destruct IH; auto.
Qed.

Lemma max0_le_app l1 l2 : max0 l1 ≤ max0 (l1 ++ l2).
Proof. rewrite max0_app. apply foldl_max_le. Qed.



Lemma scores_of_app k ty runs more :
  scores_of k ty (runs ++ more) = scores_of k ty runs ++ scores_of k ty more.
Proof. unfold scores_of. by rewrite filter_app, fmap_app. Qed.


Lemma group_combined_le_app k runs more :
  group_combined k runs ≤ group_combined k (runs ++ more).
Proof.
  unfold group_combined. rewrite !scores_of_app.
  pose proof (max0_le_app (scores_of k "driver" runs) (scores_of k "driver" more)).
  pose proof (max0_le_app (scores_of k "programming" runs)
                (scores_of k "programming" more)).
  lia.
Qed.


(** The combined score of an entry is the highest combined score among the
    (team, event) groups of its team. *)
Lemma entry_combined_max runs e :
  e ∈ aggregate_skills runs →
  (∃ ev r, r ∈ runs ∧ run_key r = (team_id e, ev) ∧
           combined e = group_combined (team_id e, ev) runs) ∧
  (∀ r, r ∈ runs → (run_key r).1 = team_id e →
        group_combined (run_key r) runs ≤ combined e).
Proof.
  intros (idx & i & [t ev] & g & -> & Hi & Hbest & Hok)%aggregate_entry.
  destruct Hok as (Ht & Hev & Hd & Hp).
  cbn [fst snd set_rank best_of team_id combined] in *.
  destruct (team_event_inv runs) as (Hnd & Hkeys & Hgok).
  assert ((t, ev) ∈ (team_event runs).*1) as Hin.
  { apply list_elem_of_fmap. exists ((t, ev), g).
    split; [done|]. by eapply list_elem_of_lookup_2. }
  rewrite Ht. split.
  - apply Hkeys in Hin as (r & Hr & Hk). exists ev, r.
    unfold group_combined. by rewrite <- Hd, <- Hp.
  - intros r Hr Hrt.
    assert (run_key r ∈ (team_event runs).*1) as Hrin by (apply Hkeys; eauto).
    apply list_elem_of_fmap in Hrin as ([k' g'] & Hk' & Hg'in).
    cbn [fst] in Hk'. subst k'.
    apply list_elem_of_lookup_1 in Hg'in as [j Hj].
    assert (group_ok runs (run_key r, g')) as (Ht' & _ & Hd' & Hp').
    { eapply (proj1 (Forall_forall _ _) Hgok). by eapply list_elem_of_lookup_2. }
    cbn [fst snd] in *. destruct Hbest as (_ & _ & Hmax).
    destruct (Hmax j _ _ Hj) as [Hle _]; [congruence|].
    unfold g_combined, group_combined in *. by rewrite <- Hd', <- Hp'.
Qed.

Lemma leaderboard_entry_of_team runs r :
  r ∈ runs → ∃ e, e ∈ aggregate_skills runs ∧ team_id e = (run_key r).1.
Proof.
  intros Hr. pose proof (leaderboard_has_team runs r Hr) as Hin.
  apply list_elem_of_fmap in Hin as (e & Ht & He). eauto.
Qed.

(** X1. More runs never lower a score: for every entry of the leaderboard of
    [runs], the leaderboard of [runs ++ more] has an entry of the same team
    whose combined score is at least as high. *)
Theorem aggregate_skills_more_runs (runs more : list run) (e : entry) :
  e ∈ aggregate_skills runs →
  ∃ e', e' ∈ aggregate_skills (runs ++ more) ∧ team_id e' = team_id e ∧
        combined e ≤ combined e'.
Proof.
  intros He. destruct (entry_combined_max runs e He) as [(ev & r & Hr & Hk & Hc) _].
  assert (r ∈ runs ++ more) as Hr' by (apply elem_of_app; by left).
  destruct (leaderboard_entry_of_team _ r Hr') as (e' & He' & Ht').
  rewrite Hk in Ht'. cbn [fst] in Ht'.
  exists e'. split; [done|]. split; [done|].
  destruct (entry_combined_max _ e' He') as [_ Hmax].
  specialize (Hmax r Hr'). rewrite Hk in Hmax. cbn [fst] in Hmax.
  rewrite Hc. etrans; [apply (group_combined_le_app _ runs more)|].
  by apply Hmax.
Qed.

Lemma aggregate_skills_more_runs_witness :
  entry_100A ∈ aggregate_skills scenario_100A ∧
  ∃ e', e' ∈ aggregate_skills (scenario_100A ++ scenario_200B) ∧
        team_id e' = team_id entry_100A ∧ combined entry_100A ≤ combined e'.
Proof.
  assert (entry_100A ∈ aggregate_skills scenario_100A) as H1.
  { apply (bool_decide_unpack _). vm_compute. exact I. }
  split; [exact H1|].
  exact (aggregate_skills_more_runs scenario_100A scenario_200B entry_100A H1).
Defined.



(** X3. Whatever the scores of the input, negative ones included, the
    components of an entry are never negative, and there is one event at
    which the team of the entry has a run in the input such that each
    component is an upper bound of the scores of its kind of the team at
    that event, and is zero or one of these scores. *)
Theorem aggregate_skills_components_bounded (runs : list run) (e : entry) :
  e ∈ aggregate_skills runs →
  0 ≤ driver e ∧ 0 ≤ programming e ∧ 0 ≤ combined e ∧
  ∃ ev,
    (∃ r, r ∈ runs ∧ run_key r = (team_id e, ev)) ∧
    (∀ s, s ∈ scores_of (team_id e, ev) "driver" runs → s ≤ driver e) ∧
    (∀ s, s ∈ scores_of (team_id e, ev) "programming" runs →
          s ≤ programming e) ∧
    (driver e = 0 ∨ driver e ∈ scores_of (team_id e, ev) "driver" runs) ∧
    (programming e = 0 ∨
     programming e ∈ scores_of (team_id e, ev) "programming" runs).
Proof.
  intros (idx & i & [t ev] & g & -> & Hi & Hbest & Hok)%aggregate_entry.
  destruct Hok as (Ht & Hev & Hd & Hp).
  cbn [fst snd set_rank best_of team_id combined driver programming] in *.
  rewrite Ht, Hd, Hp.
  pose proof (max0_nonneg (scores_of (t, ev) "driver" runs)).
  pose proof (max0_nonneg (scores_of (t, ev) "programming" runs)).
  destruct (team_event_inv runs) as (_ & Hkeys & _).
  split; [done|]. split; [done|]. split; [lia|].
  exists ev. split_and!.
  - apply Hkeys. apply list_elem_of_fmap. exists ((t, ev), g).
    split; [done|]. by eapply list_elem_of_lookup_2.
  - intros s. apply max0_elem.
  - intros s. apply max0_elem.
  - apply max0_cases.
  - apply max0_cases.
Qed.

Lemma aggregate_skills_components_bounded_witness :
  entry_negative ∈ aggregate_skills scenario_negative ∧
  (0 ≤ driver entry_negative ∧ 0 ≤ programming entry_negative ∧
   0 ≤ combined entry_negative ∧
   ∃ ev,
     (∃ r, r ∈ scenario_negative ∧ run_key r = (team_id entry_negative, ev)) ∧
     (∀ s, s ∈ scores_of (team_id entry_negative, ev) "driver" scenario_negative →
           s ≤ driver entry_negative) ∧
     (∀ s, s ∈ scores_of (team_id entry_negative, ev) "programming"
                 scenario_negative →
           s ≤ programming entry_negative) ∧
     (driver entry_negative = 0 ∨
      driver entry_negative ∈ scores_of (team_id entry_negative, ev) "driver"
                                scenario_negative) ∧
     (programming entry_negative = 0 ∨
      programming entry_negative ∈
        scores_of (team_id entry_negative, ev) "programming" scenario_negative)).
Proof.
  assert (entry_negative ∈ aggregate_skills scenario_negative) as H1.
  { apply (bool_decide_unpack _). vm_compute. exact I. }
  split; [exact H1|].
  exact (aggregate_skills_components_bounded scenario_negative entry_negative H1).
Defined.

(** ** Further properties of the qualification filter *)

Lemma aggregate_skills_sorted runs i j a b :
  aggregate_skills runs !! i = Some a → aggregate_skills runs !! j = Some b →
  (i < j)%nat →
  combined b < combined a ∨
  (combined b = combined a ∧ programming b ≤ programming a).
Proof.
  unfold aggregate_skills. rewrite !list_lookup_imap.
  intros (a0 & Ha & ->)%fmap_Some (b0 & Hb & ->)%fmap_Some Hij.
  assert (entry_le a0 b0) as Hle.
  { eapply (StronglySorted_lookup entry_le); [|exact Ha|exact Hb|exact Hij].
    apply Sorted_StronglySorted; [apply _|apply sorted_Sorted]. }
  unfold entry_le, key_le, sort_key in Hle. cbn in *. lia.
Qed.

Lemma seq_StronglySorted s n : StronglySorted lt (seq s n).
Proof.
  revert s. induction n as [|n IH]; intros s; [constructor|].
  cbn [seq]. constructor; [apply IH|].
  apply Forall_forall. intros x Hx%elem_of_seq. lia.
Qed.

Lemma filter_StronglySorted (P : nat → Prop) `{∀ x, Decision (P x)} l :
  StronglySorted lt l → StronglySorted lt (filter P l).
Proof.
  induction 1 as [|x l Hl IH Hall]; [constructor|].
  rewrite filter_cons. case_decide; [|done].
  constructor; [done|]. apply Forall_forall.
  intros y [_ Hy]%list_elem_of_filter.
  by apply (proj1 (Forall_forall _ _) Hall).
Qed.

Lemma StronglySorted_lookup_ge l m i a :
  StronglySorted lt l → Forall (λ x, (m ≤ x)%nat) l → l !! i = Some a →
  (m + i ≤ a)%nat.
Proof.
  intros Hl. revert m i. induction Hl as [|x l Hl IH Hall]; intros m i Hm; [done|].
  apply Forall_cons in Hm as [Hx Hm]. destruct i as [|i]; cbn.
  - intros [= <-]. lia.
  - intros Hi. specialize (IH (S x) i). rewrite <- Nat.add_succ_comm.
    etrans; [|apply IH; [|done]].
    + lia.
    + eapply Forall_impl; [exact Hall|]. cbn. lia.
Qed.

Lemma deref_lookup (h : list entry) addrs i :
  Forall (λ a, is_Some (h !! a)) addrs →
  deref h addrs !! i = (addrs !! i) ≫= (λ a, h !! a).
Proof.
  intros Hall. revert i. unfold deref.
  induction Hall as [|a addrs [e He] Hall IH]; intros i; [done|].
  cbn [omap list_omap]. rewrite He. destruct i as [|i]; cbn; [done|apply IH].
Qed.

(** What step 6 makes of the leaderboard of [aggregate_skills]: the bubble
    list is made of the addresses, in increasing order, of the entries whose
    team is not qualified, and the object at position [i] of the bubble list
    is the entry at its address with the bubble rank written in. *)
Lemma bubble_list_spec (runs : list run) (q : gset ident) :
  let lb := aggregate_skills runs in
  let out := filter_qualified (alloc lb).1 (alloc lb).2 q in
  StronglySorted lt out.2 ∧
  ∀ i e',
    deref out.1 out.2 !! i = Some e' ↔
    ∃ a e, out.2 !! i = Some a ∧ lb !! a = Some e ∧ (team_id e ∉ q) ∧
           e' = set_bubble_rank i e.
Proof.
  intros lb out.
  assert (out.2 = non_qualified lb (seq 0 (length lb)) q) as Hnq by done.
  assert (StronglySorted lt out.2) as Hsorted.
  { rewrite Hnq. unfold non_qualified.
    apply filter_StronglySorted, seq_StronglySorted. }
  assert (NoDup out.2) as Hnd.
  { rewrite Hnq. unfold non_qualified. apply NoDup_filter, NoDup_seq. }
  assert (∀ i a, out.2 !! i = Some a →
            ∃ e, lb !! a = Some e ∧ (team_id e ∉ q) ∧
                 out.1 !! a = Some (set_bubble_rank i e)) as Hobj.
  { intros i a Hi. pose proof Hi as Hin%list_elem_of_lookup_2.
    rewrite Hnq in Hin. unfold non_qualified in Hin.
    apply list_elem_of_filter in Hin as [Hp _]. unfold not_in in Hp.
    destruct (lb !! a) as [e|] eqn:He; [|done].
    exists e. split; [done|]. split; [by apply bool_decide_unpack in Hp|].
    unfold out, filter_qualified. cbn [fst snd alloc].
    rewrite (rerank_lookup_in 0 _ lb i a); [by rewrite He|done|done]. }
  split; [done|]. intros i e'.
  rewrite deref_lookup.
  - split.
    + intros (a & Hi & Ha)%bind_Some.
      destruct (Hobj i a Hi) as (e & He & Hq & Hout).
      exists a, e. split_and!; [done..|congruence].
    + intros (a & e & Hi & He & Hq & ->).
      destruct (Hobj i a Hi) as (e0 & He0 & _ & Hout).
      assert (e0 = e) as -> by congruence. rewrite Hi. exact Hout.
  - apply Forall_forall. intros a [k Hk]%list_elem_of_lookup_1.
    destruct (Hobj k a Hk) as (e & _ & _ & Hout). eauto.
Qed.

(** X4. For the leaderboard of [aggregate_skills] and any qualified set, the
    entry at position [i] of the bubble list is not of a qualified team, has
    bubble rank [i + 1], and its bubble rank is at most its rank; and the
    bubble list is still ordered by combined score and then programming
    score, highest first. *)
Theorem bubble_list_ranked_and_sorted (runs : list run) (q : gset ident) :
  let lb := aggregate_skills runs in
  let out := filter_qualified (alloc lb).1 (alloc lb).2 q in
  let bubble := deref out.1 out.2 in
  (∀ i e, bubble !! i = Some e →
     (team_id e ∉ q) ∧ bubble_rank e = Some (Z.of_nat i + 1) ∧
     ∃ r, rank e = Some r ∧ Z.of_nat i + 1 ≤ r) ∧
  (∀ i j a b, bubble !! i = Some a → bubble !! j = Some b → (i < j)%nat →
     combined b < combined a ∨
     (combined b = combined a ∧ programming b ≤ programming a)).
Proof.
  intros lb out bubble.
  destruct (bubble_list_spec runs q) as [Hsorted Hspec].
  fold lb in Hspec. fold out in Hspec, Hsorted. split.
  - intros i e' (a & e & Hi & He & Hq & ->)%Hspec.
    split; [done|]. split; [done|].
    exists (Z.of_nat a + 1). split.
    + cbn. by apply aggregate_skills_rank in He.
    + pose proof (StronglySorted_lookup_ge out.2 0 i a Hsorted) as Hle.
      assert (Forall (λ x, (0 ≤ x)%nat) out.2) as H0
        by (apply Forall_forall; intros; lia).
      specialize (Hle H0 Hi). lia.
  - intros i j a' b' (a & ea & Hi & Hea & _ & ->)%Hspec
      (b & eb & Hj & Heb & _ & ->)%Hspec Hij. cbn.
    apply (aggregate_skills_sorted runs a b); [done|done|].
    by apply (StronglySorted_lookup lt out.2 i j).
Qed.

(** ** Further properties of the client *)

Ltac same_request_list :=
  repeat (constructor; [intros ?? [=]; by subst|]); constructor.

(** The two ends of a case of [get_loop_log]: the loop goes on, or the call
    is over. *)
Ltac get_loop_log_rec IH :=
  lazymatch goal with
  | |- context [_get_loop _ _ _ _ (logged ?c ?E)] =>
      let evs2 := fresh "evs" in
      let H2 := fresh "H" in
      destruct (IH (logged c E)) as (evs2 & -> & H2);
      exists (E ++ evs2); split; [apply logged_logged|];
      apply Forall_app; split; [same_request_list|exact H2]
  end.

Ltac get_loop_log_end :=
  eexists; split; [reflexivity|same_request_list].

Section ClientMore.
Context {A : Type}.
Variable srv : nat → string → gmap string pval → net_result A.
Implicit Types (c : client) (ps : gmap string pval).

(** Every request of [_get] is the same request, and the client afterwards
    is the client before with what was done added to its log, the counter
    counting the requests. *)
Lemma get_loop_log attempts ep ps c :
  ∃ evs,
    (_get_loop srv attempts ep ps c).2 = logged c evs ∧
    Forall (same_request (BASE_URL +:+ ep) ps) evs.
Proof.
  revert c. induction attempts as [|a rest IH]; intros c.
  { exists []. split; [by rewrite logged_nil|constructor]. }
  rewrite get_loop_unfold. cbv zeta. unfold requested, failure_trace.
  cbn [seq flat_map app].
  destruct (srv (request_count c) (BASE_URL +:+ ep) ps) as [|status h body].
  - case_bool_decide; [get_loop_log_rec IH|get_loop_log_end].
  - case_bool_decide.
    + destruct (wait_of h) as [w|]; [|get_loop_log_end].
      case_bool_decide; [rewrite logged_logged; get_loop_log_end|].
      case_bool_decide; rewrite logged_logged;
        [get_loop_log_end|get_loop_log_rec IH].
    + destruct (is_error_status status); [|get_loop_log_end].
      case_bool_decide; [get_loop_log_rec IH|get_loop_log_end].
Qed.

End ClientMore.



(** A header that is no number ends the call with [ValueError] after one
    request. *)
Example get_malformed_retry_after :
  _get srv_bad_header "/events" ∅ client0
  = (Raise ValueError,
     logged client0 [Sleep RATE_LIMIT_DELAY; Get (BASE_URL +:+ "/events") ∅]).
Proof. by vm_compute. Qed.

Lemma page_request_of_print ep ps0 m : page_request_of ep ps0 (Print m).
Proof. by intros ?? [=]. Qed.

Section PagesLog.
Context {A : Type}.
Variable srv : nat → string → gmap string pval → net_result A.
Variables (ep label : string) (ps0 : gmap string pval).

(** The parameters of a request of the loop. *)
Let page_params (ps : gmap string pval) : Prop :=
  ps !! "per_page" = Some (PInt PER_PAGE) ∧
  (∃ p, ps !! "page" = Some (PInt p)) ∧
  ∀ key, key ≠ "page" → key ≠ "per_page" → ps !! key = ps0 !! key.

Lemma get_page_requests ps c :
  page_params ps →
  ∃ evs, (_get srv ep ps c).2 = logged c evs ∧
         Forall (page_request_of ep ps0) evs.
Proof.
  intros Hps. destruct (get_loop_log srv (seq 0 MAX_RETRIES) ep ps c)
    as (evs & Hc & Hall).
  exists evs. split; [done|]. eapply Forall_impl; [exact Hall|].
  intros ev Hev url ps' Heq. by destruct (Hev url ps' Heq) as [-> ->].
Qed.

Lemma pages_loop_log fuel :
  ∀ ps all_data c out c',
    page_params ps →
    pages_loop srv fuel ep ps label all_data c = Some (out, c') →
    ∃ evs, c' = logged c evs ∧ Forall (page_request_of ep ps0) evs.
Proof.
  induction fuel as [|fuel IH]; intros ps all_data c out c' Hps; [done|].
  cbn [pages_loop].
  destruct (get_page_requests ps c Hps) as (evs1 & Hc1 & H1).
  destruct (_get srv ep ps c) as [[result|e] c1]; cbn [snd] in Hc1; subst c1.
  2:{ intros [= <- <-]. eauto. }
  set (m := default empty_meta (meta result)).
  set (all' := all_data ++ default [] (data result)).
  set (msg := Msg_progress label (default 1 (current_page m))
                (default 1 (last_page m)) (length all')
                (default (Z.of_nat (length all')) (total m))).
  assert (∃ evs2,
    (if decide (label = "") then logged c evs1
     else (print msg (logged c evs1)).2) = logged c evs2 ∧
    Forall (page_request_of ep ps0) evs2) as (evs2 & -> & H2).
  { case_decide.
    - eauto.
    - exists (evs1 ++ [Print msg]). split.
      + by rewrite <- logged_logged.
      + apply Forall_app. split; [done|].
        constructor; [apply page_request_of_print|constructor]. }
  case_bool_decide.
  - intros [= <- <-]. case_decide; [eauto|].
    exists (evs2 ++ [Print Msg_newline]). split.
    + by rewrite <- logged_logged.
    + apply Forall_app. split; [done|].
      constructor; [apply page_request_of_print|constructor].
  - intros Hrun. apply IH in Hrun as (evs3 & -> & H3).
    + exists (evs2 ++ evs3). split; [apply logged_logged|by apply Forall_app].
    + destruct Hps as (Hpp & _ & Hother). split_and!.
      * by rewrite lookup_insert_ne.
      * eexists. by rewrite lookup_insert_eq.
      * intros key Hk1 Hk2. rewrite lookup_insert_ne by done. by apply Hother.
Qed.

End PagesLog.

(** X6. Whatever the server does, every request of a call of
    [_get_all_pages] that ends goes to the one endpoint, carries
    [per_page = 250] and a page number, and leaves the other parameters of
    the caller as they are; and the counter of the client grows by exactly
    the number of requests sent. *)
Theorem get_all_pages_requests {A}
    (srv : nat → string → gmap string pval → net_result A) (fuel : nat)
    (ep : string) (ps0 : option (gmap string pval)) (label : string)
    (c c' : client) (out : outcome (list A)) :
  _get_all_pages srv fuel ep ps0 label c = Some (out, c') →
  ∃ evs,
    log c' = log c ++ evs ∧
    request_count c' = (n_gets evs + request_count c)%nat ∧
    Forall (page_request_of ep (default ∅ ps0)) evs.
Proof.
  unfold _get_all_pages. intros Hrun.
  apply (pages_loop_log srv ep label (default ∅ ps0)) in Hrun
    as (evs & -> & Hall).
  - by exists evs.
  - split_and!.
    + rewrite lookup_insert_ne by done. by rewrite lookup_insert_eq.
    + eexists. by rewrite lookup_insert_eq.
    + intros key Hk1 Hk2. by rewrite !lookup_insert_ne by done.
Qed.

Lemma get_all_pages_requests_witness :
  ∃ c', _get_all_pages srv_three_pages 5 "/events" None "" client0
        = Some (Ret [10; 11; 30], c') ∧
  ∃ evs,
    log c' = log client0 ++ evs ∧
    request_count c' = (n_gets evs + request_count client0)%nat ∧
    Forall (page_request_of "/events" (default ∅ None)) evs.
Proof.
  destruct (_get_all_pages srv_three_pages 5 "/events" None "" client0)
    as [[out c']|] eqn:Hrun; [|by vm_compute in Hrun].
  assert (out = Ret [10; 11; 30]) as ->.
  { assert (fst <$> _get_all_pages srv_three_pages 5 "/events" None "" client0
            = Some (Ret [10; 11; 30])) as H by (by vm_compute).
    rewrite Hrun in H. by injection H. }
  exists c'. split; [reflexivity|].
  exact (get_all_pages_requests srv_three_pages 5 "/events" None "" client0 c'
           (Ret [10; 11; 30]) Hrun).
Defined.

Section GetExhausted.
Context {A : Type}.
Variable srv : nat → string → gmap string pval → net_result A.

Lemma get_all_failures ep ps c :
  (∀ k, transient_failure (srv k (BASE_URL +:+ ep) ps) = true) →
  _get srv ep ps c
  = (Raise RequestException,
     logged c (failure_trace (BASE_URL +:+ ep) ps 0 2 ++
               [Sleep RATE_LIMIT_DELAY; Get (BASE_URL +:+ ep) ps])).
Proof.
  intros Hf. unfold _get. change MAX_RETRIES with (2 + 1)%nat.
  rewrite (get_loop_failures srv 2 0) by (done || (unfold MAX_RETRIES; lia)).
  cbn [seq Nat.add]. rewrite get_loop_failure by done.
  rewrite bool_decide_false by (unfold MAX_RETRIES; lia).
  unfold requested. by rewrite logged_logged.
Qed.


End GetExhausted.

Section PagesBroken.
Context {A : Type}.
Variable srv : nat → string → gmap string pval → net_result A.
Variables (pages : nat → option (list A)) (tot : nat → option Z).
Variables (n j : nat) (ep label : string).

Hypothesis j_lt_n : (j < n)%nat.

(** The server answers the first [j] of [n] pages. *)
Hypothesis srv_first_pages :
  ∀ k ps (i : nat), (1 ≤ i ≤ j)%nat →
    ps !! "page" = Some (PInt (Z.of_nat i)) →
    srv k (BASE_URL +:+ ep) ps = page_answer pages tot n i.

Lemma pages_loop_prefix m :
  ∀ (i fuel : nat) ps all_data c,
    (1 ≤ i)%nat → (i + m = S j)%nat →
    ps !! "page" = Some (PInt (Z.of_nat i)) →
    ∃ ps' c',
      pages_loop srv (m + fuel) ep ps label all_data c
      = pages_loop srv fuel ep ps' label (all_data ++ payloads pages i m) c' ∧
      ps' !! "page" = Some (PInt (Z.of_nat (S j))) ∧
      request_count c' = (m + request_count c)%nat.
Proof.
  induction m as [|m IH]; intros i fuel ps all_data c Hi Hm Hp.
  - exists ps, c. unfold payloads. cbn [seq fmap list_fmap concat Nat.add].
    rewrite app_nil_r. split; [done|]. split; [|done].
    rewrite Hp. do 3 f_equal. lia.
  - cbn [Nat.add].
    assert (success (srv (request_count c) (BASE_URL +:+ ep) ps)
              (Json (pages i)
                 (Some (Meta (Some (Z.of_nat i)) (Some (Z.of_nat n))
                          (tot i))))) as Hok.
    { rewrite (srv_first_pages _ _ i) by (done || lia).
      exists 200, RA_absent. split_and!; [reflexivity|lia|reflexivity]. }
    rewrite (pages_loop_step srv _ _ _ _ _ _ _ Hok).
    cbn -[String.append requested progress_printed payloads].
    rewrite bool_decide_false by lia.
    edestruct (IH (S i) fuel (<["page" := PInt (Z.of_nat i + 1)]> ps))
      as (ps' & c' & Hrun & Hp' & Hcnt); [lia|lia| |].
    { rewrite lookup_insert_eq. do 2 f_equal. lia. }
    exists ps', c'. split; [|split; [done|]].
    + rewrite Hrun, payloads_S, app_assoc. done.
    + rewrite Hcnt, progress_printed_count. cbn. lia.
Qed.

End PagesBroken.

(** X7. A page that cannot be fetched aborts the whole pagination: when the
    server answers the first [j] of [n] pages and every request of page
    [j + 1] fails, [_get_all_pages] raises [RequestException] after
    [j + 3] requests and hands no page to the caller. *)
Theorem get_all_pages_failure_propagates {A}
    (srv : nat → string → gmap string pval → net_result A)
    (pages : nat → option (list A)) (tot : nat → option Z) (n j fuel : nat)
    (ep : string) (ps0 : option (gmap string pval)) (label : string)
    (c : client) :
  (j < n)%nat → (j < fuel)%nat →
  (∀ k ps (i : nat), (1 ≤ i ≤ j)%nat →
     ps !! "page" = Some (PInt (Z.of_nat i)) →
     srv k (BASE_URL +:+ ep) ps = page_answer pages tot n i) →
  (∀ k ps, ps !! "page" = Some (PInt (Z.of_nat (S j))) →
     transient_failure (srv k (BASE_URL +:+ ep) ps) = true) →
  ∃ c',
    _get_all_pages srv fuel ep ps0 label c
    = Some (Raise RequestException, c') ∧
    request_count c' = (j + 3 + request_count c)%nat.
Proof.
  intros Hj Hfuel Hsrv Hfail. unfold _get_all_pages.
  destruct (pages_loop_prefix srv pages tot n j ep label Hj Hsrv j 1
              (fuel - j) (<["page" := PInt 1]>
                 (<["per_page" := PInt PER_PAGE]> (default ∅ ps0))) [] c)
    as (ps' & c1 & Hrun & Hp & Hcnt); [lia|lia|by rewrite lookup_insert_eq|].
  replace (j + (fuel - j))%nat with fuel in Hrun by lia. rewrite Hrun.
  destruct (fuel - j)%nat as [|fuel'] eqn:Hf; [lia|].
  cbn [pages_loop].
  rewrite (get_all_failures srv ep ps' c1) by (intros k; by apply Hfail).
  eexists. split; [reflexivity|].
  cbn [logged request_count]. rewrite n_gets_app, n_gets_failure_trace.
  cbn. lia.
Qed.


Lemma get_all_pages_failure_propagates_witness :
  (1 < 3)%nat ∧ (1 < 5)%nat ∧
  (∀ k ps (i : nat), (1 ≤ i ≤ 1)%nat →
     ps !! "page" = Some (PInt (Z.of_nat i)) →
     srv_second_page_down k (BASE_URL +:+ "/events") ps
     = page_answer pages3 (λ _, Some 77) 3 i) ∧
  (∀ k ps, ps !! "page" = Some (PInt (Z.of_nat 2)) →
     transient_failure (srv_second_page_down k (BASE_URL +:+ "/events") ps)
     = true) ∧
  ∃ c',
    _get_all_pages srv_second_page_down 5 "/events" None "" client0
    = Some (Raise RequestException, c') ∧
    request_count c' = (1 + 3 + request_count client0)%nat.
Proof.
  assert (1 < 3)%nat as H1 by lia.
  assert (1 < 5)%nat as H2 by lia.
  assert (∀ k ps (i : nat), (1 ≤ i ≤ 1)%nat →
     ps !! "page" = Some (PInt (Z.of_nat i)) →
     srv_second_page_down k (BASE_URL +:+ "/events") ps
     = page_answer pages3 (λ _, Some 77) 3 i) as H3.
  { intros k ps i Hi Hp. assert (i = 1%nat) as -> by lia.
    unfold srv_second_page_down. by rewrite Hp. }
  assert (∀ k ps, ps !! "page" = Some (PInt (Z.of_nat 2)) →
     transient_failure (srv_second_page_down k (BASE_URL +:+ "/events") ps)
     = true) as H4.
  { intros k ps Hp. unfold srv_second_page_down. by rewrite Hp. }
  split; [exact H1|]. split; [exact H2|]. split; [exact H3|]. split; [exact H4|].
  exact (get_all_pages_failure_propagates srv_second_page_down pages3
           (λ _, Some 77) 3 1 5 "/events" None "" client0 H1 H2 H3 H4).
Defined.


(** The same two servers run: the exception, and one page of three. *)
Example get_all_pages_second_page_down :
  fst <$> _get_all_pages srv_second_page_down 5 "/events" None "" client0
  = Some (Raise RequestException).
Proof. by vm_compute. Qed.

Example get_all_pages_second_page_limited :
  fst <$> _get_all_pages srv_second_page_limited 5 "/events" None "" client0
  = Some (Ret [10; 11]).
Proof. by vm_compute. Qed.

(** ** [get_worlds_event] *)

Lemma first_v5rc_find events :
  first_v5rc events = snd <$> list_find is_v5rc events.
Proof.
  induction events as [|e events IH]; [done|].
  cbn [first_v5rc list_find]. rewrite IH.
  destruct (decide (is_v5rc e)) as [Hv|Hv].
  - by rewrite decide_True by exact Hv.
  - rewrite decide_False by exact Hv.
    by destruct (list_find is_v5rc events) as [[i w]|].
Qed.

(** X9. When the Worlds query is answered, [get_worlds_event] gives [None]
    exactly when the answer has no event; otherwise it gives an event of the
    answer: the first one of the target program when there is one, all
    events before it being of other programs, and the first event of the
    answer when no event is of the target program. *)
Theorem get_worlds_event_choice
    (srv : nat → string → gmap string pval → net_result event_json)
    (season_id : Z) (c : client) (body : json event_json) :
  success (srv (request_count c) (BASE_URL +:+ "/events")
             (worlds_params season_id)) body →
  let events := default [] (data body) in
  ∃ res,
    get_worlds_event srv season_id c
    = (Ret res, requested c (BASE_URL +:+ "/events") (worlds_params season_id)) ∧
    (res = None ↔ events = []) ∧
    (∀ e, res = Some e → e ∈ events) ∧
    ((∃ e, e ∈ events ∧ is_v5rc e) →
     ∃ i w, res = Some w ∧ events !! i = Some w ∧ is_v5rc w ∧
            ∀ j e', events !! j = Some e' → (j < i)%nat → ¬ is_v5rc e') ∧
    ((∀ e, e ∈ events → ¬ is_v5rc e) → res = head events).
Proof.
  intros Hok events. unfold get_worlds_event.
  unfold mbind, M_bind, bind. rewrite (get_success srv _ _ _ _ Hok).
  fold events. rewrite first_v5rc_find.
  destruct (list_find is_v5rc events) as [[i w]|] eqn:Hfind; cbn [fmap option_fmap option_map snd].
  - apply list_find_Some in Hfind as (Hi & Hw & Hbefore).
    exists (Some w). split; [done|]. split_and!.
    + split; [done|]. intros Hnil. by rewrite Hnil in Hi.
    + intros e [= <-]. by eapply list_elem_of_lookup_2.
    + intros _. exists i, w. split_and!; try done.
    + intros Hnone. exfalso. eapply Hnone; [|exact Hw].
      by eapply list_elem_of_lookup_2.
  - apply list_find_None in Hfind.
    exists (head events). split; [done|]. split_and!.
    + by destruct events.
    + intros e He. destruct events as [|e0 events']; [done|].
      injection He as ->. left.
    + intros (e & He & Hv). exfalso.
      by apply (proj1 (Forall_forall _ _) Hfind e He).
    + done.
Qed.

Lemma get_worlds_event_choice_witness :
  success (srv_worlds (request_count client0) (BASE_URL +:+ "/events")
             (worlds_params 190)) (Json (Some worlds_two_programs) None) ∧
  (let events := default [] (data (Json (Some worlds_two_programs) None)) in
   ∃ res,
     get_worlds_event srv_worlds 190 client0
     = (Ret res, requested client0 (BASE_URL +:+ "/events") (worlds_params 190)) ∧
     (res = None ↔ events = []) ∧
     (∀ e, res = Some e → e ∈ events) ∧
     ((∃ e, e ∈ events ∧ is_v5rc e) →
      ∃ i w, res = Some w ∧ events !! i = Some w ∧ is_v5rc w ∧
             ∀ j e', events !! j = Some e' → (j < i)%nat → ¬ is_v5rc e') ∧
     ((∀ e, e ∈ events → ¬ is_v5rc e) → res = head events)).
Proof.
  assert (success (srv_worlds (request_count client0) (BASE_URL +:+ "/events")
             (worlds_params 190)) (Json (Some worlds_two_programs) None)) as H1.
  { exists 200, RA_absent. split_and!; [reflexivity|lia|reflexivity]. }
  split; [exact H1|].
  exact (get_worlds_event_choice srv_worlds 190 client0 _ H1).
Defined.

Example get_worlds_event_two_programs :
  (get_worlds_event srv_worlds 190 client0).1
  = Ret (Some (EventJson (Some 502) (Some "V5RC Worlds") None
                 (Some (ProgramInfo (Some 1))))).
Proof. by vm_compute. Qed.

(** ** Step 3 of [main]: the qualified teams *)

Lemma add_qualified_inr (teams : list team_json) (q q' : gset ident) :
  add_qualified teams q = inr q' →
  ∀ t : ident, t ∈ q' ↔
       t ∈ q ∨ ∃ team, team ∈ teams ∧ counted team ∧ tmj_id team = Some t.
Proof.
  revert q. induction teams as [|team teams IH]; intros q.
  - intros [= <-] t. split; [by left|]. intros [?|(team & Hin & _)]; [done|].
    by apply elem_of_nil in Hin.
  - cbn [add_qualified]. fold (counted team). case_decide as Hc.
    + destruct (tmj_id team) as [i|] eqn:Hid; [|done].
      intros Hrun t. rewrite (IH _ Hrun t), elem_of_union, elem_of_singleton.
      split.
      * intros [[->|?]|(team' & Hin & ?)]; [|by left|].
        -- right. exists team. split_and!; [left|done..].
        -- right. exists team'. split; [by right|done].
      * intros [?|(team' & [->|Hin]%elem_of_cons & Hc' & Hid')].
        -- left. by right.
        -- left. left. congruence.
        -- right. eauto 6.
    + intros Hrun t. rewrite (IH _ Hrun t). split.
      * intros [?|(team' & Hin & ?)]; [by left|].
        right. exists team'. split; [by right|done].
      * intros [?|(team' & [->|Hin]%elem_of_cons & Hc' & Hid')];
          [by left|done|]. right. eauto 6.
Qed.

Lemma add_qualified_inl (teams : list team_json) (q : gset ident) :
  (∃ e, add_qualified teams q = inl e) ↔
  ∃ team, team ∈ teams ∧ counted team ∧ tmj_id team = None.
Proof.
  revert q. induction teams as [|team teams IH]; intros q.
  - cbn. split; [by intros [? ?]|]. intros (team & Hin & _).
    by apply elem_of_nil in Hin.
  - cbn [add_qualified]. fold (counted team). case_decide as Hc.
    + destruct (tmj_id team) as [i|] eqn:Hid.
      * rewrite IH. split.
        -- intros (team' & Hin & ?). exists team'. split; [by right|done].
        -- intros (team' & [->|Hin]%elem_of_cons & Hc' & Hid'); [congruence|].
           eauto.
      * split; [|eauto]. intros _. exists team. split; [left|done].
    + rewrite IH. split.
      * intros (team' & Hin & ?). exists team'. split; [by right|done].
      * intros (team' & [->|Hin]%elem_of_cons & Hc' & Hid'); [done|]. eauto.
Qed.

(** X10. The set of qualified teams built from a roster: building it fails
    with [KeyError] exactly when a team that counts (its grade is "High
    School", or missing, or empty) has no key [id]; otherwise the set holds
    exactly what the teams that count have under [id], so never the
    identifier of a team of another grade only. The identifier [None] of the
    runs without a team is in the set exactly when a team that counts has
    the [id] [null]. *)
Theorem qualified_team_ids_of_roster (worlds_teams : list team_json) :
  ((∃ e, add_qualified worlds_teams ∅ = inl e) ↔
   ∃ team, team ∈ worlds_teams ∧ counted team ∧ tmj_id team = None) ∧
  ∀ q, add_qualified worlds_teams ∅ = inr q →
    (∀ t : ident, t ∈ q ↔ ∃ team, team ∈ worlds_teams ∧ counted team ∧
                                  tmj_id team = Some t) ∧
    (None ∈ q ↔ ∃ team, team ∈ worlds_teams ∧ counted team ∧
                        tmj_id team = Some None).
Proof.
  split; [apply add_qualified_inl|].
  intros q Hq. pose proof (add_qualified_inr _ _ _ Hq) as Hmem.
  assert (∀ t : ident, t ∈ q ↔ ∃ team, team ∈ worlds_teams ∧ counted team ∧
                                       tmj_id team = Some t) as Hall.
  { intros t. rewrite (Hmem t). split; [|by right].
    intros [H0|?]; [|done]. by apply not_elem_of_empty in H0. }
  split; [exact Hall|apply Hall].
Qed.

Example qualified_team_ids_roster3 :
  add_qualified roster3 ∅ = inr ({[Some 100; Some 300]} : gset ident).
Proof. by vm_compute. Qed.

(** A team with the [id] [null] puts [None] into the set; a team that counts
    and has no key [id] ends step 3 with [KeyError]. *)
Example qualified_team_ids_roster_null :
  add_qualified roster_null ∅ = inr ({[Some 100; None]} : gset ident) ∧
  add_qualified [TeamJson None (Some "High School")] ∅ = inl (KeyError "id") ∧
  add_qualified [TeamJson None (Some "Middle School")] ∅ = inr ∅.
Proof. by vm_compute. Qed.

(** ** Steps 3 to 6 of [main] together *)

Lemma bubble_list_complete (runs : list run) (q : gset ident) (a : nat)
    (e : entry) :
  let lb := aggregate_skills runs in
  let out := filter_qualified (alloc lb).1 (alloc lb).2 q in
  lb !! a = Some e → team_id e ∉ q → ∃ i, out.2 !! i = Some a.
Proof.
  intros lb out Ha Hq. apply list_elem_of_lookup_1.
  unfold out, filter_qualified, alloc, non_qualified. cbn [fst snd].
  apply list_elem_of_filter. split.
  - unfold not_in. rewrite Ha. by apply bool_decide_pack.
  - apply elem_of_seq. apply lookup_lt_Some in Ha. lia.
Qed.

(** X11. With the qualified set built from a roster, the team of every team
    of the roster that counts is absent from the bubble list, and every
    entry of the leaderboard whose team is not such a team is in the bubble
    list. The entry of the runs without a team identifier is in the bubble
    list exactly when no team that counts has the [id] [null]. *)
Theorem roster_filters_bubble_list (worlds_teams : list team_json)
    (q : gset ident) (runs : list run) :
  add_qualified worlds_teams ∅ = inr q →
  let lb := aggregate_skills runs in
  let out := filter_qualified (alloc lb).1 (alloc lb).2 q in
  let bubble := deref out.1 out.2 in
  (∀ team e, team ∈ worlds_teams → counted team → e ∈ bubble →
     tmj_id team ≠ Some (team_id e)) ∧
  (∀ e, e ∈ lb →
     (∀ team, team ∈ worlds_teams → counted team →
        tmj_id team ≠ Some (team_id e)) →
     ∃ i, bubble !! i = Some (set_bubble_rank i e)) ∧
  (∀ e, e ∈ lb → team_id e = None →
     ((∃ i, bubble !! i = Some (set_bubble_rank i e)) ↔
      ¬ ∃ team, team ∈ worlds_teams ∧ counted team ∧ tmj_id team = Some None)).
Proof.
  intros Hq lb out bubble.
  pose proof (add_qualified_inr _ _ _ Hq) as Hmem.
  destruct (bubble_list_spec runs q) as [_ Hspec].
  fold lb in Hspec. fold out in Hspec. fold bubble in Hspec.
  assert (∀ e, e ∈ lb → team_id e ∉ q →
               ∃ i, bubble !! i = Some (set_bubble_rank i e)) as Hin.
  { intros e [a Ha]%list_elem_of_lookup_1 Hnq.
    destruct (bubble_list_complete runs q a e Ha Hnq) as [i Hi].
    exists i. apply Hspec. eauto 6. }
  split_and!.
  - intros team e' Hteam Hc [k Hk]%list_elem_of_lookup_1.
    apply Hspec in Hk as (a & e & _ & _ & Hnq & ->). cbn.
    intros Heq. apply Hnq. apply Hmem. right. eauto 6.
  - intros e He Hno. apply Hin; [done|].
    intros [H0|(team & Hteam & Hc & Hid)]%Hmem.
    + by apply not_elem_of_empty in H0.
    + by eapply Hno.
  - intros e He Hnone. split.
    + intros [i Hi] (team & Hteam & Hc & Hid).
      apply Hspec in Hi as (a & e0 & _ & _ & Hnq & Heq).
      apply Hnq. apply Hmem. right. exists team. split_and!; [done..|].
      rewrite Hid. f_equal. rewrite <- Hnone.
      by apply (f_equal team_id) in Heq.
    + intros Hno. apply Hin; [done|].
      intros [H0|(team & Hteam & Hc & Hid)]%Hmem.
      * by apply not_elem_of_empty in H0.
      * apply Hno. exists team. by rewrite <- Hnone.
Qed.

Lemma roster_filters_bubble_list_witness :
  add_qualified roster_null ∅ = inr ({[Some 100; None]} : gset ident) ∧
  (let lb := aggregate_skills scenario_no_team in
   let out := filter_qualified (alloc lb).1 (alloc lb).2
                ({[Some 100; None]} : gset ident) in
   let bubble := deref out.1 out.2 in
   (∀ team e, team ∈ roster_null → counted team → e ∈ bubble →
      tmj_id team ≠ Some (team_id e)) ∧
   (∀ e, e ∈ lb →
      (∀ team, team ∈ roster_null → counted team →
         tmj_id team ≠ Some (team_id e)) →
      ∃ i, bubble !! i = Some (set_bubble_rank i e)) ∧
   (∀ e, e ∈ lb → team_id e = None →
      ((∃ i, bubble !! i = Some (set_bubble_rank i e)) ↔
       ¬ ∃ team, team ∈ roster_null ∧ counted team ∧ tmj_id team = Some None))).
Proof.
  assert (add_qualified roster_null ∅ = inr ({[Some 100; None]} : gset ident))
    as H1 by (by vm_compute).
  split; [exact H1|].
  exact (roster_filters_bubble_list roster_null {[Some 100; None]}
           scenario_no_team H1).
Defined.

(** The runs without a team make an entry of the leaderboard, and the team
    of the roster with the [id] [null] takes it out of the bubble list, with
    team 100; without that team the entry stays. *)
Example bubble_list_roster_null :
  team_id <$> aggregate_skills scenario_no_team = [Some 100; Some 200; None] ∧
  (let lb := aggregate_skills scenario_no_team in
   let out := filter_qualified (alloc lb).1 (alloc lb).2
                ({[Some 100; None]} : gset ident) in
   team_id <$> deref out.1 out.2 = [Some 200]) ∧
  (let lb := aggregate_skills scenario_no_team in
   let out := filter_qualified (alloc lb).1 (alloc lb).2
                ({[Some 100; Some 300]} : gset ident) in
   team_id <$> deref out.1 out.2 = [Some 200; None]).
Proof. by vm_compute. Qed.

(** ** Step 4 of [main]: the runs of all events *)

(** X12. Step 4 gives up the events whose fetch raises and keeps the rest:
    when every event to fetch has an [id] and the fetch of an event ends in
    [outcome_of] its identifier, the loop over the events that are no
    workshops ends without error with the runs of the events whose fetch
    returned, in the order of the events, the events whose fetch raised
    adding nothing. *)
Theorem fetch_skills_skips_failed_events
    (srv : nat → string → gmap string pval → net_result run) (fuel : nat)
    (events : list event_json) (outcome_of : Z → outcome (list run))
    (c : client) :
  (∀ e, e ∈ skills_events events → is_Some (evj_id e)) →
  (∀ e eid c1, e ∈ skills_events events → evj_id e = Some eid →
     ∃ c2, get_event_skills srv fuel eid c1 = Some (outcome_of eid, c2)) →
  ∃ c',
    fetch_skills srv fuel (skills_events events) [] c
    = Some (inr (concat (fetched outcome_of <$> skills_events events)), c').
Proof.
  generalize (skills_events events). clear events. intros events Hids Hfetch.
  assert (∀ acc c0, ∃ c',
    fetch_skills srv fuel events acc c0
    = Some (inr (acc ++ concat (fetched outcome_of <$> events)), c')) as Hgen.
  { induction events as [|e events IH]; intros acc c0.
    - exists c0. cbn. by rewrite app_nil_r.
    - destruct (Hids e) as [eid Heid]; [left|].
      destruct (Hfetch e eid c0) as [c2 Hrun]; [left|done|].
      cbn [fetch_skills]. rewrite Heid, Hrun.
      cbn [fmap list_fmap concat]. unfold fetched at 1. rewrite Heid.
      destruct (outcome_of eid) as [skills|err].
      + destruct (IH ltac:(intros; apply Hids; by right)
                    ltac:(intros ??? Hin; apply Hfetch; by right)
                    (acc ++ skills) c2) as [c' ->].
        exists c'. by rewrite app_assoc.
      + destruct (IH ltac:(intros; apply Hids; by right)
                    ltac:(intros ??? Hin; apply Hfetch; by right)
                    acc c2) as [c' ->].
        by exists c'. }
  destruct (Hgen [] c) as [c' Hc']. by exists c'.
Qed.

Lemma fetch_skills_skips_failed_events_witness :
  (∀ e, e ∈ skills_events events3 → is_Some (evj_id e)) ∧
  (∀ e eid c1, e ∈ skills_events events3 → evj_id e = Some eid →
     ∃ c2, get_event_skills srv_skills1 5 eid c1
           = Some (outcome_skills1 eid, c2)) ∧
  ∃ c',
    fetch_skills srv_skills1 5 (skills_events events3) [] client0
    = Some (inr (concat (fetched outcome_skills1 <$> skills_events events3)),
            c').
Proof.
  assert (skills_events events3
          = [ EventJson (Some 1) (Some "E1") (Some "tournament") None;
              EventJson (Some 2) (Some "E2") None None ]) as Hev
    by (by vm_compute).
  assert (∀ e, e ∈ skills_events events3 → is_Some (evj_id e)) as H1.
  { rewrite Hev. intros e [->|[->|[]%elem_of_nil]%elem_of_cons]%elem_of_cons;
      by eexists. }
  assert (∀ e eid c1, e ∈ skills_events events3 → evj_id e = Some eid →
     ∃ c2, get_event_skills srv_skills1 5 eid c1
           = Some (outcome_skills1 eid, c2)) as H2.
  { rewrite Hev.
    intros e eid c1 [->|[->|[]%elem_of_nil]%elem_of_cons]%elem_of_cons [= <-];
      unfold get_event_skills, _get_all_pages.
    - erewrite (pages_loop_step srv_skills1 4 _ _ _ _ _
                  (Json (Some scenario_100A) None)).
      + eexists. reflexivity.
      + exists 200, RA_absent. split_and!; [reflexivity|lia|reflexivity].
    - cbn [pages_loop]. rewrite get_all_failures by (intros; reflexivity).
      eexists. reflexivity. }
  split; [exact H1|]. split; [exact H2|].
  exact (fetch_skills_skips_failed_events srv_skills1 5 events3 outcome_skills1
           client0 H1 H2).
Defined.

(** The same run, and the leaderboard of what it collects. *)
Example fetch_skills_events3 :
  fst <$> fetch_skills srv_skills1 5 (skills_events events3) [] client0
  = Some (inr scenario_100A).
Proof. by vm_compute. Qed.
